(** * Deletion utilities of the training-data cleanup scripts

    A shallow embedding of [scripts/delete_training_data_utils.js] and the
    properties of its cascading cleanup: tombstone writes ([deleteDocs]),
    the per-person cascade ([isContactFor], [writeDocsToFile],
    [removeContact], [cleanContactPerson], [cleanContactPersons]), the list
    filters ([filterByDate], [filterByType]) and the confirmation gate
    ([userConfirm]).

    Modelling choices.
    - A document is a JavaScript object used as a map from field names to
      values: [gmap string jsval].  Documents are held by reference: the
      heap maps a location to the object stored there, so that an in-place
      update ([doc._deleted = true], [delete facility.contact]) is seen
      through every alias of the object.
    - Numbers are integers ([Z]): the numbers the scripts handle are
      millisecond timestamps and lengths, all exactly representable.
    - Everything the module does to the outside world (the store [db], the
      file system, the console, the prompt, [process.exit]) is recorded, in
      order, in the trace of the world.  The answers of the outside world are
      oracles that see the whole history so far, so every run of the real
      collaborators is covered by some oracle.
    - A promise is a computation [M A] that ends fulfilled, rejected, with
      the process gone, or never settles; [.then] and [.catch] are [then_]
      and [catch_]. *)

From Stdlib Require Import Ascii String.
From stdpp Require Import gmap strings list fin_maps pretty ssreflect.

Set Warnings "-register-all,-rewrite-rw".

Open Scope string_scope.
Open Scope list_scope.
Open Scope Z_scope.

(** ** Values *)

Inductive jsval : Type :=
| JUndefined
| JNull
| JBool (b : bool)
| JNum (n : Z)
| JStr (s : string)
| JArr (items : list jsval)
| JRec (fields : list (string * jsval)).

(** A document: field name to value. *)
Abbreviation obj := (gmap string jsval).

Definition loc := positive.

(** [Array.prototype.join] with the separator [","]. *)
Fixpoint join_comma (parts : list string) : string :=
  match parts with
  | [] => ""
  | [s] => s
  | s :: rest => s +:+ "," +:+ join_comma rest
  end.

(** ToString, as used by [+] between a string and a value.  A number is
    printed in decimal, as JavaScript prints the integers below 1e21. *)
Fixpoint ToString (v : jsval) : string :=
  match v with
  | JUndefined => "undefined"
  | JNull => "null"
  | JBool true => "true"
  | JBool false => "false"
  | JNum n => pretty n
  | JStr s => s
  | JArr items =>
      join_comma (map (fun x => match x with
                                | JUndefined | JNull => ""
                                | _ => ToString x
                                end) items)
  | JRec _ => "[object Object]"
  end.

(** ToBoolean: the falsy values are [undefined], [null], [false], [0] and
    the empty string. *)
Definition truthy (v : jsval) : bool :=
  match v with
  | JUndefined | JNull => false
  | JBool b => b
  | JNum n => negb (n =? 0)
  | JStr s => negb (String.eqb s "")
  | JArr _ | JRec _ => true
  end.

(** Strict equality [===] against a string. *)
Definition strict_eq_str (v : jsval) (s : string) : bool :=
  match v with
  | JStr s' => String.eqb s' s
  | _ => false
  end.

(** ** Regular expressions, for the validator of the prompt *)

Inductive regex : Type :=
| RNone
| REps
| RChar (c : ascii)
| RSet (cs : list ascii)
| RSeq (r1 r2 : regex)
| RAlt (r1 r2 : regex)
| RStar (r : regex)
| ROpt (r : regex).

Fixpoint nullable (r : regex) : bool :=
  match r with
  | RNone => false
  | REps => true
  | RChar _ => false
  | RSet _ => false
  | RSeq r1 r2 => nullable r1 && nullable r2
  | RAlt r1 r2 => nullable r1 || nullable r2
  | RStar _ => true
  | ROpt _ => true
  end.

Fixpoint deriv (c : ascii) (r : regex) : regex :=
  match r with
  | RNone => RNone
  | REps => RNone
  | RChar c' => if Ascii.eqb c c' then REps else RNone
  | RSet cs => if existsb (Ascii.eqb c) cs then REps else RNone
  | RSeq r1 r2 =>
      if nullable r1
      then RAlt (RSeq (deriv c r1) r2) (deriv c r2)
      else RSeq (deriv c r1) r2
  | RAlt r1 r2 => RAlt (deriv c r1) (deriv c r2)
  | RStar r' => RSeq (deriv c r') (RStar r')
  | ROpt r' => deriv c r'
  end.

(** Some prefix of [s] matches [r]. *)
Fixpoint matches_prefix (r : regex) (s : string) : bool :=
  nullable r ||
  match s with
  | EmptyString => false
  | String c s' => matches_prefix (deriv c r) s'
  end.

(** [RegExp.prototype.test] of an unanchored pattern: a match may start
    anywhere in the string. *)
Fixpoint regex_test (r : regex) (s : string) : bool :=
  matches_prefix r s ||
  match s with
  | EmptyString => false
  | String _ s' => regex_test r s'
  end.

(** ** The world: heap, trace and console input *)

Record query_options := QueryOptions {
  key : jsval;
  include_docs : bool
}.

Inductive event : Type :=
| EvLog (args : list jsval)
| EvQuery (view : string) (options : query_options)
| EvBulkDocs (docs : list obj)
| EvWriteFile (path : string) (data : list obj) (err : option jsval)
| EvPrompt (answer : jsval + string)
| EvExit.

(** What reaches the prompt from the operator: a line, or an interrupt
    (Ctrl-C).  The input channel ends where the list ends. *)
Inductive input : Type :=
| Typed (line : string)
| Interrupt.

Record world := World {
  heap : gmap loc obj;
  trace : list event;
  stdin : list input
}.

(** How a promise settles. *)
Inductive settled (A : Type) : Type :=
| Resolves (a : A)
| Rejects (reason : jsval).
Arguments Resolves {A} a.
Arguments Rejects {A} reason.

(** The store handle [db]: what [db.query] and [db.bulkDocs] answer, given
    the history so far.  A query answers rows [{id, doc}]; the row documents
    are fresh objects. *)
Record database := Database {
  query : list event -> string -> query_options -> settled (list (string * obj));
  bulkDocs : list event -> list obj -> settled (list jsval)
}.

(** ** Promises *)

(** How a computation ends: its promise is fulfilled or rejected, the process
    is ended by [process.exit], or the promise is left pending for ever and
    nothing that was chained on it runs. *)
Inductive outcome (A : Type) : Type :=
| Fulfilled (a : A)
| Rejected (reason : jsval)
| Exited
| Pending.
Arguments Fulfilled {A} a.
Arguments Rejected {A} reason.
Arguments Exited {A}.
Arguments Pending {A}.

Definition M (A : Type) : Type := world -> outcome A * world.

Definition resolve {A} (a : A) : M A := fun w => (Fulfilled a, w).

Definition throw {A} (reason : jsval) : M A := fun w => (Rejected reason, w).

Definition then_ {A B} (p : M A) (f : A -> M B) : M B :=
  fun w =>
    match p w with
    | (Fulfilled a, w') => f a w'
    | (Rejected e, w') => (Rejected e, w')
    | (Exited, w') => (Exited, w')
    | (Pending, w') => (Pending, w')
    end.

Definition catch_ {A} (p : M A) (h : jsval -> M A) : M A :=
  fun w =>
    match p w with
    | (Fulfilled a, w') => (Fulfilled a, w')
    | (Rejected e, w') => h e w'
    | (Exited, w') => (Exited, w')
    | (Pending, w') => (Pending, w')
    end.

Notation "'let!' x ':=' p 'in' k" := (then_ p (fun x => k))
  (at level 10, x name, p at level 100, k at level 200).
Notation "'do!' p 'in' k" := (then_ p (fun _ => k))
  (at level 10, p at level 100, k at level 200).

Definition set_heap (h : gmap loc obj) (w : world) : world :=
  {| heap := h; trace := trace w; stdin := stdin w |}.

Definition emit (e : event) (w : world) : world :=
  {| heap := heap w; trace := trace w ++ [e]; stdin := stdin w |}.

(** The object at a location. *)
Definition get_obj (h : gmap loc obj) (l : loc) : obj := default ∅ (h !! l).

(** [o.k]: an absent field reads [undefined]. *)
Definition get_field (o : obj) (k : string) : jsval := default JUndefined (o !! k).

Definition field (l : loc) (k : string) : M jsval :=
  fun w => (Fulfilled (get_field (get_obj (heap w) l) k), w).

(** In-place update of the object at [l]. *)
Definition modify (l : loc) (f : obj -> obj) : M unit :=
  fun w => (Fulfilled tt, set_heap (<[l := f (get_obj (heap w) l)]> (heap w)) w).

(** A new object. *)
Definition alloc (o : obj) : M loc :=
  fun w => let l := fresh (dom (heap w)) in
           (Fulfilled l, set_heap (<[l := o]> (heap w)) w).

Definition console_log (args : list jsval) : M unit :=
  fun w => (Fulfilled tt, emit (EvLog args) w).

Definition process_exit {A} : M A := fun w => (Exited, emit EvExit w).

(** [_.map] and [_.each] with an effectful callback, left to right. *)
Fixpoint map_ {A B} (f : A -> M B) (l : list A) : M (list B) :=
  match l with
  | [] => resolve []
  | x :: rest =>
      let! y := f x in
      let! ys := map_ f rest in
      resolve (y :: ys)
  end.

Definition each_ {A} (f : A -> M unit) (l : list A) : M unit :=
  do! map_ f l in resolve tt.

(** [_.filter] with a predicate that only reads the documents. *)
Definition filter_ (p : obj -> bool) (l : list loc) : M (list loc) :=
  fun w => (Fulfilled (List.filter (fun d => p (get_obj (heap w) d)) l), w).

(** [db.query]: the call is recorded, the store answers, and the documents
    of the rows become objects of the heap.  The client of the store builds
    the rows anew from each answer, so each row document is a new object;
    the module itself passes [row.doc] on as it is. *)
Definition db_query (db : database) (view : string) (options : query_options)
  : M (list (string * loc)) :=
  fun w =>
    let w1 := emit (EvQuery view options) w in
    match query db (trace w) view options with
    | Rejects e => (Rejected e, w1)
    | Resolves rows =>
        map_ (fun row : string * obj =>
                let! d := alloc (snd row) in resolve (fst row, d)) rows w1
    end.

(** [db.bulkDocs]: the store receives the documents as they are at the call. *)
Definition db_bulkDocs (db : database) (docs : list loc) : M (list jsval) :=
  fun w =>
    let sent := map (get_obj (heap w)) docs in
    let w1 := emit (EvBulkDocs sent) w in
    match bulkDocs db (trace w) sent with
    | Rejects e => (Rejected e, w1)
    | Resolves result => (Fulfilled result, w1)
    end.

(** ** The [prompt] package

    [prompt.get] reads lines until one passes the validator of the property;
    a blank line stands for the default.  On an interrupt the callback gets
    the error [canceled].  When the input ends before an answer the callback
    is never called. *)

Record property := Property {
  name : string;
  message : string;
  validator : regex;
  warning : string;
  default_answer : string
}.

(** What the callback gets, [None] when it is never called, and the input
    left. *)
Fixpoint prompt_read (p : property) (keys : list input)
  : option (jsval + string) * list input :=
  match keys with
  | [] => (None, [])
  | Interrupt :: rest => (Some (inl (JStr "canceled")), rest)
  | Typed line :: rest =>
      let answer := if String.eqb line "" then default_answer p else line in
      if regex_test (validator p) answer
      then (Some (inr answer), rest)
      else prompt_read p rest
  end.

Definition prompt_get (p : property) : M (jsval + string) :=
  fun w =>
    match prompt_read p (stdin w) with
    | (Some answer, rest) =>
        (Fulfilled answer,
         emit (EvPrompt answer) {| heap := heap w; trace := trace w; stdin := rest |})
    | (None, rest) =>
        (Pending, {| heap := heap w; trace := trace w; stdin := rest |})
    end.

(** ** The module *)

Section Utils.

(** [fs.writeFile]: the error handed to the callback, if any. *)
Variable fs_writeFile : list event -> string -> list obj -> option jsval.

(** The numeric value of a string when it is compared with a number; [None]
    stands for NaN. *)
Variable StringToNumber : string -> option Z.

Definition ToNumber (v : jsval) : option Z :=
  match v with
  | JUndefined => None
  | JNull => Some 0
  | JBool b => Some (if b then 1 else 0)
  | JNum n => Some n
  | JStr s => StringToNumber s
  | JArr _ | JRec _ => StringToNumber (ToString v)
  end.

(** [v >= n] and [v < n] for a number [n]: false when [v] is NaN. *)
Definition js_ge (v : jsval) (n : Z) : bool :=
  match ToNumber v with
  | Some m => n <=? m
  | None => false
  end.

Definition js_lt (v : jsval) (n : Z) : bool :=
  match ToNumber v with
  | Some m => m <? n
  | None => false
  end.

Definition getDocsFromRows (rows : list (string * loc)) : list loc :=
  map snd rows.

Definition getIdsFromRows (rows : list (string * loc)) : list string :=
  map fst rows.

(** What [deleteDocs] hands back: the documents themselves under dry-run,
    the answer of the store otherwise. *)
Inductive deleted : Type :=
| Untouched (docs : list loc)
| StoreResult (result : list jsval).

Definition deleteDocs (dryrun : bool) (db : database) (docs : list loc) : M deleted :=
  if dryrun then
    do! console_log [JStr "Dryrun : not deleting."] in
    resolve (Untouched docs)
  else
    let! docsWithDeleteField :=
      map_ (fun doc =>
              do! modify doc (insert "_deleted" (JBool true)) in
              resolve doc) docs in
    let! result := db_bulkDocs db docsWithDeleteField in
    do! console_log [JStr ("Deleted : " +:+ pretty (length result) +:+ ":")] in
    do! console_log [JArr result] in
    resolve (StoreResult result).

Definition filterByDate (docsList : list loc) (startTimestamp endTimestamp : Z)
  : M (list loc) :=
  let! filteredList :=
    filter_ (fun doc =>
               truthy (get_field doc "reported_date")
               && js_ge (get_field doc "reported_date") startTimestamp
               && js_lt (get_field doc "reported_date") endTimestamp) docsList in
  do! console_log [JStr ("Filtered by date : " +:+ pretty (length filteredList))] in
  resolve filteredList.

Definition filterByType (docsList : list loc) (type : string) : M (list loc) :=
  let! filteredList :=
    filter_ (fun doc => strict_eq_str (get_field doc "type") type) docsList in
  do! console_log [JStr ("Filtered by type " +:+ type +:+ " : "
                         +:+ pretty (length filteredList))] in
  resolve filteredList.

Definition isContactFor (db : database) (personId : jsval) : M (list loc) :=
  catch_
    (let! rows := db_query db "medic/facilities_by_contact"
                    {| key := JArr [personId]; include_docs := true |} in
     let ids := getIdsFromRows rows in
     do! (if (0 <? length rows)%nat
          then console_log
                 [JStr ("Person " +:+ ToString personId +:+ " is contact for "
                        +:+ pretty (length rows) +:+ " facilities : ");
                  JArr (map JStr ids)]
          else resolve tt) in
     resolve (getDocsFromRows rows))
    (fun err =>
       do! console_log [JStr ("Error in isContactFor " +:+ ToString personId)] in
       do! console_log [err] in
       throw err).

Definition removeContact (db : database) (dryrun : bool) (person : loc)
    (facilitiesList : list loc) : M loc :=
  do! each_ (fun facility => modify facility (delete "contact")) facilitiesList in
  if dryrun then
    do! console_log [JStr "Dryrun : not removing contact links."] in
    resolve person
  else
    let! result := db_bulkDocs db facilitiesList in
    let! person_id := field person "_id" in
    do! console_log [JStr ("Removed contact " +:+ ToString person_id +:+ " from "
                           +:+ pretty (length facilitiesList) +:+ " facilities")] in
    do! console_log [JArr result] in
    resolve person.

Definition writeDocsToFile (filepath : string) (docsList : list loc) : M (list loc) :=
  if (length docsList =? 0)%nat then
    resolve docsList
  else
    fun w =>
      let data := map (get_obj (heap w)) docsList in
      let err := fs_writeFile (trace w) filepath data in
      let w1 := emit (EvWriteFile filepath data err) w in
      match err with
      | Some _ => (Rejected (JStr ("Couldn't write to file" +:+ filepath)), w1)
      | None =>
          (do! console_log [JStr ("Wrote " +:+ pretty (length docsList)
                                  +:+ " docs to file " +:+ filepath)] in
           resolve docsList) w1
      end.

(** Fulfils with [None] ([undefined]) when no facility refers to the person,
    with the person otherwise. *)
Definition cleanContactPerson (db : database) (dryrun : bool) (logdir : string)
    (person : loc) : M (option loc) :=
  let! person_id := field person "_id" in
  catch_
    (let! facilities := isContactFor db person_id in
     if (length facilities =? 0)%nat then
       resolve None
     else
       let! person_id := field person "_id" in
       let! docsList :=
         writeDocsToFile (logdir +:+ "/cleaned_facilities_" +:+ ToString person_id
                          +:+ ".json") facilities in
       let! p := removeContact db dryrun person docsList in
       resolve (Some p))
    (fun err =>
       let! person_id := field person "_id" in
       do! console_log [JStr ("Error when removing contact " +:+ ToString person_id)] in
       do! console_log [err] in
       throw err).

Definition cleanContactPersons (db : database) (dryrun : bool) (logdir : string)
    (personsList : list loc) : M (list loc) :=
  let promise :=
    fold_left
      (fun (promise : M (option loc)) person =>
         do! promise in cleanContactPerson db dryrun logdir person)
      personsList (resolve None) in
  do! promise in resolve personsList.

Definition yesno_validator : regex :=
  RAlt (RSeq (RChar "y") (RStar (RSet ["e"; "s"]%char)))
       (RSeq (RChar "n") (ROpt (RSet ["o"]%char))).

Definition userConfirm (message : string) : M unit :=
  do! console_log [JStr message] in
  let property :=
    {| name := "yesno";
       message := message;
       validator := yesno_validator;
       warning := "Must respond yes or no";
       default_answer := "yes" |} in
  let! answer := prompt_get property in
  match answer with
  | inl err =>
      do! console_log [err] in
      process_exit
  | inr yesno =>
      if negb (String.eqb yesno "yes") then
        do! console_log [JStr "User backed out. Exiting."] in
        process_exit
      else
        resolve tt
  end.

End Utils.

(** ** Vocabulary of the statements *)

(** The heap after [f] has been applied in place to the objects at [ls], in
    order. *)
Definition update_all (f : obj -> obj) (ls : list loc) (h : gmap loc obj)
  : gmap loc obj :=
  fold_left (fun h l => <[l := f (get_obj h l)]> h) ls h.

(** The locations and the heap after the objects [objs] have been created,
    in order. *)
Fixpoint alloc_all (objs : list obj) (h : gmap loc obj) : list loc * gmap loc obj :=
  match objs with
  | [] => ([], h)
  | o :: rest =>
      let l := fresh (dom h) in
      let '(ls, h') := alloc_all rest (<[l := o]> h) in
      (l :: ls, h')
  end.

(** The facilities a lookup brings into the heap when the store answers
    [rows], the heap with them, and the heap once their contact is removed. *)
Definition fetched (rows : list (string * obj)) (w : world) : list loc :=
  (alloc_all (map snd rows) (heap w)).1.

Definition heap_fetched (rows : list (string * obj)) (w : world) : gmap loc obj :=
  (alloc_all (map snd rows) (heap w)).2.

Definition heap_stripped (rows : list (string * obj)) (w : world) : gmap loc obj :=
  update_all (delete "contact") (fetched rows w) (heap_fetched rows w).

(** The [_id] of the object at [p]. *)
Definition person_id (w : world) (p : loc) : jsval :=
  get_field (get_obj (heap w) p) "_id".

(** The lookup of the facilities that have [pid] as their contact. *)
Definition facilities_by_contact (pid : jsval) : query_options :=
  {| key := JArr [pid]; include_docs := true |}.

(** The audit file of a person. *)
Definition audit_file (logdir : string) (pid : jsval) : string :=
  logdir +:+ "/cleaned_facilities_" +:+ ToString pid +:+ ".json".

(** The events of a run from [w] to [w']. *)
Definition emitted (w w' : world) : list event :=
  drop (length (trace w)) (trace w').

(** Events that change the store. *)
Definition is_store_write (e : event) : bool :=
  match e with
  | EvBulkDocs _ => true
  | _ => false
  end.

(** [_deleted] is [true] in the document. *)
Definition tombstone (o : obj) : Prop := o !! "_deleted" = Some (JBool true).

(** A document whose [reported_date], when present, is a number. *)
Definition dated (o : obj) : Prop :=
  o !! "reported_date" = None \/ exists n, o !! "reported_date" = Some (JNum n).

(** The persons of the list handled one after the other: each cascade runs
    from the world the one before left, and the queue stops at the first
    that does not fulfil. *)
Fixpoint in_turn (clean : loc -> M (option loc)) (persons : list loc)
    (last : option loc) (w : world) : outcome (option loc) * world :=
  match persons with
  | [] => (Fulfilled last, w)
  | p :: rest =>
      match clean p w with
      | (Fulfilled r, w1) => in_turn clean rest r w1
      | failed => failed
      end
  end.

(** [sequential clean persons w segs w']: from [w], the cascades of
    [persons] all fulfil, one after the other; [segs] lists what each emitted
    and [w'] is the world at the end. *)
Inductive sequential (clean : loc -> M (option loc))
  : list loc -> world -> list (list event) -> world -> Prop :=
| sequential_nil w : sequential clean [] w [] w
| sequential_cons p rest w r w1 seg segs w2 :
    clean p w = (Fulfilled r, w1) ->
    trace w1 = trace w ++ seg ->
    sequential clean rest w1 segs w2 ->
    sequential clean (p :: rest) w (seg :: segs) w2.

(** What the lookup of the facilities of [pid] emits when the store answers
    [rows], and what the audit of these rows emits when the file is
    written. *)
Definition lookup_events (pid : jsval) (rows : list (string * obj)) : list event :=
  EvQuery "medic/facilities_by_contact" (facilities_by_contact pid) ::
  (if (0 <? length rows)%nat
   then [EvLog [JStr ("Person " +:+ ToString pid +:+ " is contact for "
                      +:+ pretty (length rows) +:+ " facilities : ");
                JArr (map JStr (map fst rows))]]
   else []).

Definition audit_events (logdir : string) (pid : jsval) (rows : list (string * obj))
  : list event :=
  [EvWriteFile (audit_file logdir pid) (map snd rows) None;
   EvLog [JStr ("Wrote " +:+ pretty (length rows) +:+ " docs to file "
                +:+ audit_file logdir pid)]].

(** A step of the cascade of [person] fails from [w] with [reason]: the
    store rejects the lookup of the facilities, the audit file cannot be
    written, or the store rejects the write of the stripped facilities. *)
Inductive step_fails (fs_writeFile : list event -> string -> list obj -> option jsval)
    (db : database) (dryrun : bool) (logdir : string) (person : loc)
    (w : world) (reason : jsval) : Prop :=
| lookup_fails :
    query db (trace w) "medic/facilities_by_contact"
      (facilities_by_contact (person_id w person)) = Rejects reason ->
    step_fails fs_writeFile db dryrun logdir person w reason
| audit_fails rows err :
    query db (trace w) "medic/facilities_by_contact"
      (facilities_by_contact (person_id w person)) = Resolves rows ->
    rows <> [] ->
    fs_writeFile (trace w ++ lookup_events (person_id w person) rows)
      (audit_file logdir (person_id w person)) (map snd rows) = Some err ->
    reason = JStr ("Couldn't write to file"
                   +:+ audit_file logdir (person_id w person)) ->
    step_fails fs_writeFile db dryrun logdir person w reason
| store_write_fails rows :
    query db (trace w) "medic/facilities_by_contact"
      (facilities_by_contact (person_id w person)) = Resolves rows ->
    rows <> [] ->
    fs_writeFile (trace w ++ lookup_events (person_id w person) rows)
      (audit_file logdir (person_id w person)) (map snd rows) = None ->
    dryrun = false ->
    bulkDocs db
      (trace w ++ lookup_events (person_id w person) rows
       ++ audit_events logdir (person_id w person) rows)
      (map (delete "contact") (map snd rows)) = Rejects reason ->
    step_fails fs_writeFile db dryrun logdir person w reason.

(** A computation is orderly when it only adds events at the end of the
    trace, never ends the process and always settles. *)
Definition orderly {A} (m : M A) : Prop :=
  forall w, (exists seg, trace (m w).2 = trace w ++ seg)
            /\ (m w).1 <> Exited /\ (m w).1 <> Pending.

(** The reported date is a number other than zero in [[t0, t1)]. *)
Definition nonzero_in_range (t0 t1 : Z) (o : obj) : bool :=
  match o !! "reported_date" with
  | Some (JNum n) => negb (n =? 0) && (t0 <=? n) && (n <? t1)
  | _ => false
  end.

(** ** A small store, for the worked cases

    Two persons [P1] and [P2]; the facilities [F1] and [F2] have [P1] as
    contact, [F3] has [P2]. *)

Module Sample.

Definition doc (fields : list (string * jsval)) : obj := list_to_map fields.

Definition F1 : obj :=
  doc [("_id", JStr "F1"); ("type", JStr "clinic"); ("contact", JStr "P1")].
Definition F2 : obj :=
  doc [("_id", JStr "F2"); ("type", JStr "clinic"); ("contact", JStr "P1")].
Definition F3 : obj :=
  doc [("_id", JStr "F3"); ("type", JStr "clinic"); ("contact", JStr "P2")].
Definition P1 : obj :=
  doc [("_id", JStr "P1"); ("type", JStr "person"); ("reported_date", JNum 5)].
Definition P2 : obj :=
  doc [("_id", JStr "P2"); ("type", JStr "person"); ("reported_date", JNum 0)].
Definition P3 : obj :=
  doc [("_id", JStr "P3"); ("type", JStr "person")].

Definition facilities_of (options : query_options) : list (string * obj) :=
  match key options with
  | JArr [JStr "P1"] => [("F1", F1); ("F2", F2)]
  | JArr [JStr "P2"] => [("F3", F3)]
  | _ => []
  end.

Definition ok_rows (docs : list obj) : list jsval :=
  map (fun _ => JRec [("ok", JBool true)]) docs.

(** A store that answers every call. *)
Definition db : database :=
  {| query := fun _ _ options => Resolves (facilities_of options);
     bulkDocs := fun _ docs => Resolves (ok_rows docs) |}.

(** A store that cannot look up the facilities of [P2]. *)
Definition flaky_db : database :=
  {| query := fun _ _ options =>
                match key options with
                | JArr [JStr "P2"] => Rejects (JStr "timeout")
                | _ => Resolves (facilities_of options)
                end;
     bulkDocs := fun _ docs => Resolves (ok_rows docs) |}.

Definition fs_ok : list event -> string -> list obj -> option jsval :=
  fun _ _ _ => None.

Definition no_number : string -> option Z := fun _ => None.

(** The persons are the objects 1, 2 and 3 of the heap. *)
Definition start : world :=
  {| heap := list_to_map [(1%positive, P1); (2%positive, P2); (3%positive, P3)];
     trace := [];
     stdin := [] |}.

(** A facility held in memory by the caller, at location 4. *)
Definition with_facility : world :=
  {| heap := <[4%positive := F1]> (heap start); trace := []; stdin := [] |}.

(** The world once the cascade of [P1] has run against the flaky store. *)
Definition after_P1 : world :=
  (cleanContactPerson fs_ok flaky_db false "logs" 1%positive start).2.

(** The operator types these lines at the prompt. *)
Definition typing (lines : list string) : world :=
  {| heap := ∅; trace := []; stdin := map Typed lines |}.

End Sample.

(** ** Vocabulary of the further properties *)

(** The answer contains the letter [y] or the letter [n]. *)
Fixpoint has_y_or_n (s : string) : bool :=
  match s with
  | EmptyString => false
  | String c s' => Ascii.eqb c "y" || Ascii.eqb c "n" || has_y_or_n s'
  end.

(** A line the prompt does not take for an answer: not blank and refused by
    the validator. *)
Definition refused (line : string) : Prop :=
  line <> "" /\ regex_test yesno_validator line = false.

(** Calls to the store: the lookups and the bulk writes. *)
Definition is_store_call (e : event) : bool :=
  match e with
  | EvQuery _ _ | EvBulkDocs _ => true
  | _ => false
  end.

Definition store_calls (evs : list event) : nat :=
  length (List.filter is_store_call evs).

(** A computation that only adds events at the end of the trace, none of
    them a write to the store. *)
Definition read_only {A} (m : M A) : Prop :=
  forall w, exists seg,
    trace (m w).2 = trace w ++ seg
    /\ Forall (fun e => is_store_write e = false) seg.

(** The objects of [w] are still there, unchanged, in [w']. *)
Definition keeps_objects (w w' : world) : Prop :=
  forall l, is_Some (heap w !! l) -> heap w' !! l = heap w !! l.

(** Further worked cases. *)
Module Cases.

(** A store that rejects every write. *)
Definition read_only_db : database :=
  {| query := fun _ _ options => Resolves (Sample.facilities_of options);
     bulkDocs := fun _ _ => Rejects (JStr "forbidden") |}.

(** The person [P1] once deleted, at location 1, and a facility without
    contact at location 2. *)
Definition settled_world : world :=
  {| heap := list_to_map
               [(1%positive, <["_deleted" := JBool true]> Sample.P1);
                (2%positive, delete "contact" Sample.F1)];
     trace := [];
     stdin := [] |}.

(** A person document without [_id], at location 1, and a store that
    answers the facility [F3] for the key [[undefined]]. *)
Definition anonymous_world : world :=
  {| heap := list_to_map [(1%positive, Sample.doc [("type", JStr "person")])];
     trace := [];
     stdin := [] |}.

Definition undefined_db : database :=
  {| query := fun _ _ options =>
                match key options with
                | JArr [JUndefined] => Resolves [("F3", Sample.F3)]
                | _ => Resolves []
                end;
     bulkDocs := fun _ docs => Resolves (Sample.ok_rows docs) |}.

(** The answer of the store for a document it refuses to write. *)
Definition refused_write (id : string) : jsval :=
  JRec [("id", JStr id); ("error", JStr "conflict");
        ("reason", JStr "Document update conflict.")].

(** A store whose bulk write fulfils, with an error for every document. *)
Definition conflict_db : database :=
  {| query := fun _ _ options => Resolves (Sample.facilities_of options);
     bulkDocs := fun _ docs =>
       Resolves (map (fun o => refused_write (ToString (get_field o "_id"))) docs) |}.

End Cases.

(** ** The heap *)

Lemma set_heap_same w : set_heap (heap w) w = w.
Proof. by destruct w. Qed.

Lemma get_obj_insert (h : gmap loc obj) l o l' :
  get_obj (<[l := o]> h) l' = if decide (l = l') then o else get_obj h l'.
Proof.
  unfold get_obj. rewrite lookup_insert. by case_decide.
Qed.

Lemma map_modify f ls w :
  map_ (fun doc => do! modify doc f in resolve doc) ls w
  = (Fulfilled ls, set_heap (update_all f ls (heap w)) w).
Proof.
  revert w. induction ls as [|l ls IH]; intros w.
  - by rewrite /= /resolve set_heap_same.
  - rewrite /= /then_ /=. rewrite IH. by destruct w.
Qed.

Lemma each_modify f ls w :
  each_ (fun doc => modify doc f) ls w
  = (Fulfilled tt, set_heap (update_all f ls (heap w)) w).
Proof.
  unfold each_, then_.
  assert (forall w, exists us,
    map_ (fun doc => modify doc f) ls w
    = (Fulfilled us, set_heap (update_all f ls (heap w)) w)) as H.
  { induction ls as [|l ls IH]; intros w'.
    - exists []. by rewrite /= /resolve set_heap_same.
    - rewrite /= /then_ /=.
      destruct (IH (set_heap (<[l := f (get_obj (heap w') l)]> (heap w')) w'))
        as [us ->].
      exists (tt :: us). by destruct w'. }
  by destruct (H w) as [us ->].
Qed.

(** Updating in place with an idempotent [f]: the objects of the list are
    changed by [f], aliases included, and no other object is touched. *)
Lemma get_obj_update_all f ls h l :
  (forall o, f (f o) = f o) ->
  get_obj (update_all f ls h) l
  = if decide (l ∈ ls) then f (get_obj h l) else get_obj h l.
Proof.
  intros Hf. revert h. induction ls as [|a ls IH]; intros h.
  - destruct (decide (l ∈ [])) as [Hin|_]; last done. by apply elem_of_nil in Hin.
  - rewrite /= -/(update_all f ls _) IH !get_obj_insert.
    destruct (decide (l ∈ ls)) as [Hin|Hnin], (decide (a = l)) as [Heq|Hne],
      (decide (l ∈ a :: ls)) as [Hin'|Hnin']; rewrite ?Heq ?Hf; try done.
    + destruct Hnin'. rewrite Heq. by left.
    + destruct Hnin'. by right.
    + destruct Hnin'. rewrite Heq. by left.
    + by apply elem_of_cons in Hin' as [->|?].
Qed.

Lemma lookup_update_all_other f ls (h : gmap loc obj) l :
  l ∉ ls -> update_all f ls h !! l = h !! l.
Proof.
  revert h. induction ls as [|a ls IH]; intros h Hl; first done.
  rewrite /= -/(update_all f ls _) IH; last set_solver.
  rewrite lookup_insert_ne //. set_solver.
Qed.

Lemma map_get_obj_update_all f ls h :
  (forall o, f (f o) = f o) ->
  map (get_obj (update_all f ls h)) ls = map f (map (get_obj h) ls).
Proof.
  intros Hf. rewrite map_map. apply map_ext_in. intros l Hl.
  rewrite get_obj_update_all // decide_True //. by apply list_elem_of_In.
Qed.

(** New objects hold what they were created with, lie outside the old heap,
    and leave the old objects as they were. *)
Lemma alloc_all_spec objs h ls h' :
  alloc_all objs h = (ls, h') ->
  map (get_obj h') ls = objs
  /\ (forall l, l ∈ dom h -> h' !! l = h !! l)
  /\ (forall l, l ∈ ls -> l ∉ dom h)
  /\ length ls = length objs.
Proof.
  revert h ls h'. induction objs as [|o rest IH]; intros h ls h'.
  - intros [= <- <-]. split_and!; try done. set_solver.
  - cbn [alloc_all].
    destruct (alloc_all rest (<[fresh (dom h) := o]> h)) as [ls0 h0] eqn:E.
    intros [= <- <-]. destruct (IH _ _ _ E) as (Hobjs & Hframe & Hfresh & Hlen).
    pose proof (is_fresh (dom h)) as Hl.
    split_and!.
    + cbn [map]. f_equal; last done.
      unfold get_obj. rewrite Hframe.
      * by rewrite lookup_insert_eq.
      * apply elem_of_dom. rewrite lookup_insert_eq. eauto.
    + intros l Hin. rewrite Hframe.
      * rewrite lookup_insert_ne //. by intros <-.
      * apply elem_of_dom. rewrite lookup_insert_ne; last by intros <-.
        by apply elem_of_dom.
    + intros l [->|Hin]%elem_of_cons; first done.
      intros Hd. apply (Hfresh l Hin).
      rewrite dom_insert_L. by apply elem_of_union_r.
    + cbn [length]. by rewrite Hlen.
Qed.

Lemma map_alloc (rows : list (string * obj)) w :
  map_ (fun row : string * obj =>
          let! d := alloc (snd row) in resolve (fst row, d)) rows w
  = (Fulfilled (zip (map fst rows) (alloc_all (map snd rows) (heap w)).1),
     set_heap (alloc_all (map snd rows) (heap w)).2 w).
Proof.
  revert w. induction rows as [|[id o] rows IH]; intros w.
  - by rewrite /= /resolve set_heap_same.
  - rewrite /= /then_ /= IH /=.
    destruct (alloc_all (map snd rows) (<[fresh (dom (heap w)) := o]> (heap w))).
    by destruct w.
Qed.

(** ** The steps of the cascade *)

Lemma then_fulfilled {A B} (p : M A) (f : A -> M B) w a w' :
  p w = (Fulfilled a, w') -> then_ p f w = f a w'.
Proof. unfold then_. by intros ->. Qed.

Lemma then_rejected {A B} (p : M A) (f : A -> M B) w e w' :
  p w = (Rejected e, w') -> then_ p f w = (Rejected e, w').
Proof. unfold then_. by intros ->. Qed.

Lemma catch_fulfilled {A} (p : M A) h w a w' :
  p w = (Fulfilled a, w') -> catch_ p h w = (Fulfilled a, w').
Proof. unfold catch_. by intros ->. Qed.

Lemma catch_rejected {A} (p : M A) h w e w' :
  p w = (Rejected e, w') -> catch_ p h w = h e w'.
Proof. unfold catch_. by intros ->. Qed.

Section Steps.

Variable fs_writeFile : list event -> string -> list obj -> option jsval.
Variable db : database.

Lemma db_query_rejected view options w reason :
  query db (trace w) view options = Rejects reason ->
  db_query db view options w
  = (Rejected reason,
     {| heap := heap w; trace := trace w ++ [EvQuery view options];
        stdin := stdin w |}).
Proof. unfold db_query. by intros ->. Qed.

Lemma db_query_resolved view options w rows :
  query db (trace w) view options = Resolves rows ->
  db_query db view options w
  = (Fulfilled (zip (map fst rows) (alloc_all (map snd rows) (heap w)).1),
     {| heap := (alloc_all (map snd rows) (heap w)).2;
        trace := trace w ++ [EvQuery view options];
        stdin := stdin w |}).
Proof. unfold db_query. intros ->. by rewrite map_alloc. Qed.

Lemma isContactFor_rejected pid w reason :
  query db (trace w) "medic/facilities_by_contact" (facilities_by_contact pid)
    = Rejects reason ->
  isContactFor db pid w
  = (Rejected reason,
     {| heap := heap w;
        trace := trace w
                 ++ [EvQuery "medic/facilities_by_contact" (facilities_by_contact pid);
                     EvLog [JStr ("Error in isContactFor " +:+ ToString pid)];
                     EvLog [reason]];
        stdin := stdin w |}).
Proof.
  intros Hq. unfold isContactFor.
  erewrite catch_rejected;
    last by erewrite then_rejected; last by apply db_query_rejected, Hq.
  by rewrite /then_ /console_log /throw /emit /= -!app_assoc.
Qed.

Lemma isContactFor_resolved pid w rows :
  query db (trace w) "medic/facilities_by_contact" (facilities_by_contact pid)
    = Resolves rows ->
  isContactFor db pid w
  = (Fulfilled (alloc_all (map snd rows) (heap w)).1,
     {| heap := (alloc_all (map snd rows) (heap w)).2;
        trace := trace w ++ lookup_events pid rows;
        stdin := stdin w |}).
Proof.
  intros Hq. unfold isContactFor.
  apply catch_fulfilled.
  erewrite then_fulfilled; last by apply db_query_resolved, Hq.
  destruct (alloc_all (map snd rows) (heap w)) as [ls h] eqn:E.
  apply alloc_all_spec in E as (_ & _ & _ & Hlen).
  rewrite length_map in Hlen.
  rewrite /getDocsFromRows /getIdsFromRows /lookup_events.
  cbn [fst snd].
  rewrite length_zip length_map Hlen Nat.min_id.
  rewrite -/(fmap snd (zip (map fst rows) ls)) snd_zip; last by rewrite length_map Hlen.
  rewrite -/(fmap fst (zip (map fst rows) ls)) fst_zip; last by rewrite length_map Hlen.
  destruct (0 <? length rows)%nat;
    by rewrite /then_ /console_log /resolve /emit /= -?app_assoc.
Qed.

Lemma writeDocsToFile_empty filepath w :
  writeDocsToFile fs_writeFile filepath [] w = (Fulfilled [], w).
Proof. done. Qed.

Lemma writeDocsToFile_failed filepath docsList w err :
  docsList <> [] ->
  fs_writeFile (trace w) filepath (map (get_obj (heap w)) docsList) = Some err ->
  writeDocsToFile fs_writeFile filepath docsList w
  = (Rejected (JStr ("Couldn't write to file" +:+ filepath)),
     {| heap := heap w;
        trace := trace w
                 ++ [EvWriteFile filepath (map (get_obj (heap w)) docsList) (Some err)];
        stdin := stdin w |}).
Proof.
  intros Hne Hfs. destruct docsList as [|d docs]; first done.
  by rewrite /writeDocsToFile /= Hfs.
Qed.

Lemma writeDocsToFile_written filepath docsList w :
  docsList <> [] ->
  fs_writeFile (trace w) filepath (map (get_obj (heap w)) docsList) = None ->
  writeDocsToFile fs_writeFile filepath docsList w
  = (Fulfilled docsList,
     {| heap := heap w;
        trace := trace w
                 ++ [EvWriteFile filepath (map (get_obj (heap w)) docsList) None;
                     EvLog [JStr ("Wrote " +:+ pretty (length docsList)
                                  +:+ " docs to file " +:+ filepath)]];
        stdin := stdin w |}).
Proof.
  intros Hne Hfs. destruct docsList as [|d docs]; first done.
  rewrite /writeDocsToFile /= Hfs.
  by rewrite /then_ /console_log /resolve /emit /= -!app_assoc.
Qed.

Lemma removeContact_dryrun person facilitiesList w :
  removeContact db true person facilitiesList w
  = (Fulfilled person,
     {| heap := update_all (delete "contact") facilitiesList (heap w);
        trace := trace w ++ [EvLog [JStr "Dryrun : not removing contact links."]];
        stdin := stdin w |}).
Proof.
  unfold removeContact.
  erewrite then_fulfilled; last by apply each_modify.
  done.
Qed.

Lemma removeContact_rejected person facilitiesList w reason :
  let h := update_all (delete "contact") facilitiesList (heap w) in
  bulkDocs db (trace w) (map (get_obj h) facilitiesList) = Rejects reason ->
  removeContact db false person facilitiesList w
  = (Rejected reason,
     {| heap := h;
        trace := trace w ++ [EvBulkDocs (map (get_obj h) facilitiesList)];
        stdin := stdin w |}).
Proof.
  intros h Hb. unfold removeContact.
  erewrite then_fulfilled; last by apply each_modify.
  by rewrite /then_ /db_bulkDocs /= Hb.
Qed.

Lemma removeContact_resolved person facilitiesList w result :
  let h := update_all (delete "contact") facilitiesList (heap w) in
  bulkDocs db (trace w) (map (get_obj h) facilitiesList) = Resolves result ->
  removeContact db false person facilitiesList w
  = (Fulfilled person,
     {| heap := h;
        trace := trace w
                 ++ [EvBulkDocs (map (get_obj h) facilitiesList);
                     EvLog [JStr ("Removed contact "
                                  +:+ ToString (get_field (get_obj h person) "_id")
                                  +:+ " from " +:+ pretty (length facilitiesList)
                                  +:+ " facilities")];
                     EvLog [JArr result]];
        stdin := stdin w |}).
Proof.
  intros h Hb. unfold removeContact.
  erewrite then_fulfilled; last by apply each_modify.
  rewrite /then_ /db_bulkDocs /= Hb.
  by rewrite /field /console_log /resolve /emit /= -!app_assoc.
Qed.

(** *** The cascade of one person, case by case *)

Lemma fetched_objects rows w :
  map (get_obj (heap_fetched rows w)) (fetched rows w) = map snd rows.
Proof.
  unfold heap_fetched, fetched.
  destruct (alloc_all (map snd rows) (heap w)) as [ls h] eqn:E.
  by apply alloc_all_spec in E as (? & _).
Qed.

Lemma fetched_length rows w : length (fetched rows w) = length rows.
Proof. by rewrite -(length_map (get_obj (heap_fetched rows w))) fetched_objects length_map. Qed.

Lemma fetched_nonempty rows w : rows <> [] -> fetched rows w <> [].
Proof.
  intros Hne Hnil. apply Hne, length_zero_iff_nil.
  by rewrite -(fetched_length rows w) Hnil.
Qed.

Lemma stripped_objects rows w :
  map (get_obj (heap_stripped rows w)) (fetched rows w)
  = map (delete "contact") (map snd rows).
Proof.
  rewrite /heap_stripped map_get_obj_update_all; first by rewrite fetched_objects.
  intros o. apply delete_delete_eq.
Qed.

(** The objects that were there before the lookup are not touched by the
    cascade. *)
Lemma heap_fetched_frame rows w l :
  is_Some (heap w !! l) -> heap_fetched rows w !! l = heap w !! l.
Proof.
  intros Hl. unfold heap_fetched.
  destruct (alloc_all (map snd rows) (heap w)) as [ls h] eqn:E.
  apply alloc_all_spec in E as (_ & Hframe & _).
  by apply Hframe, elem_of_dom.
Qed.

Lemma heap_stripped_frame rows w l :
  is_Some (heap w !! l) -> heap_stripped rows w !! l = heap w !! l.
Proof.
  intros Hl. rewrite /heap_stripped lookup_update_all_other.
  - by apply heap_fetched_frame.
  - unfold heap_fetched, fetched.
    destruct (alloc_all (map snd rows) (heap w)) as [ls h] eqn:E.
    apply alloc_all_spec in E as (_ & _ & Hfresh & _).
    intros Hin. by apply (Hfresh l Hin), elem_of_dom.
Qed.

Variables (dryrun : bool) (logdir : string) (person : loc) (w : world).

Let pid := person_id w person.

Lemma cleanContactPerson_lookup_failed reason :
  query db (trace w) "medic/facilities_by_contact" (facilities_by_contact pid)
    = Rejects reason ->
  cleanContactPerson fs_writeFile db dryrun logdir person w
  = (Rejected reason,
     {| heap := heap w;
        trace := trace w
                 ++ [EvQuery "medic/facilities_by_contact" (facilities_by_contact pid);
                     EvLog [JStr ("Error in isContactFor " +:+ ToString pid)];
                     EvLog [reason];
                     EvLog [JStr ("Error when removing contact " +:+ ToString pid)];
                     EvLog [reason]];
        stdin := stdin w |}).
Proof.
  intros Hq. unfold cleanContactPerson.
  erewrite then_fulfilled; last done.
  erewrite catch_rejected; last first.
  { erewrite then_rejected; last by apply isContactFor_rejected, Hq.
    done. }
  by rewrite /then_ /field /console_log /throw /emit /= -!app_assoc.
Qed.

Lemma cleanContactPerson_no_facility :
  query db (trace w) "medic/facilities_by_contact" (facilities_by_contact pid)
    = Resolves [] ->
  cleanContactPerson fs_writeFile db dryrun logdir person w
  = (Fulfilled None,
     {| heap := heap w;
        trace := trace w
                 ++ [EvQuery "medic/facilities_by_contact" (facilities_by_contact pid)];
        stdin := stdin w |}).
Proof.
  intros Hq. unfold cleanContactPerson.
  erewrite then_fulfilled; last done.
  apply catch_fulfilled.
  erewrite then_fulfilled; last by apply isContactFor_resolved, Hq.
  done.
Qed.

Hypothesis person_live : is_Some (heap w !! person).

Lemma person_id_fetched rows :
  get_field (get_obj (heap_fetched rows w) person) "_id" = pid.
Proof. by rewrite /pid /person_id /get_obj heap_fetched_frame. Qed.

Lemma person_id_stripped rows :
  get_field (get_obj (heap_stripped rows w) person) "_id" = pid.
Proof. by rewrite /pid /person_id /get_obj heap_stripped_frame. Qed.

(** Up to the audit: the lookup answered [rows], not empty. *)
Lemma cleanContactPerson_to_audit rows :
  query db (trace w) "medic/facilities_by_contact" (facilities_by_contact pid)
    = Resolves rows ->
  rows <> [] ->
  cleanContactPerson fs_writeFile db dryrun logdir person w
  = catch_
      (let! docsList := writeDocsToFile fs_writeFile (audit_file logdir pid)
                          (fetched rows w) in
       let! p := removeContact db dryrun person docsList in
       resolve (Some p))
      (fun err =>
         let! person_id := field person "_id" in
         do! console_log [JStr ("Error when removing contact "
                                +:+ ToString person_id)] in
         do! console_log [err] in
         throw err)
      {| heap := heap_fetched rows w;
         trace := trace w ++ lookup_events pid rows;
         stdin := stdin w |}.
Proof.
  intros Hq Hne.
  unfold cleanContactPerson.
  erewrite then_fulfilled; last done.
  unfold catch_.
  erewrite then_fulfilled; last by apply isContactFor_resolved, Hq.
  rewrite -/(fetched rows w) -/(heap_fetched rows w).
  pose proof (fetched_nonempty rows w Hne) as Hf.
  destruct (fetched rows w) as [|d ds] eqn:E; first done.
  cbn [length Nat.eqb].
  erewrite then_fulfilled; last done.
  cbn [heap]. by rewrite person_id_fetched.
Qed.

Lemma cleanContactPerson_audit_failed rows err :
  query db (trace w) "medic/facilities_by_contact" (facilities_by_contact pid)
    = Resolves rows ->
  rows <> [] ->
  fs_writeFile (trace w ++ lookup_events pid rows) (audit_file logdir pid)
    (map snd rows) = Some err ->
  cleanContactPerson fs_writeFile db dryrun logdir person w
  = (Rejected (JStr ("Couldn't write to file" +:+ audit_file logdir pid)),
     {| heap := heap_fetched rows w;
        trace := trace w ++ lookup_events pid rows
                 ++ [EvWriteFile (audit_file logdir pid) (map snd rows) (Some err);
                     EvLog [JStr ("Error when removing contact " +:+ ToString pid)];
                     EvLog [JStr ("Couldn't write to file"
                                  +:+ audit_file logdir pid)]];
        stdin := stdin w |}).
Proof.
  intros Hq Hne Hfs. rewrite (cleanContactPerson_to_audit rows) //.
  erewrite catch_rejected; last first.
  { erewrite then_rejected; first done.
    apply writeDocsToFile_failed with (err := err).
    - by apply fetched_nonempty.
    - by rewrite /= fetched_objects. }
  rewrite /then_ /field /console_log /throw /emit /=.
  by rewrite person_id_fetched fetched_objects -!app_assoc.
Qed.

Lemma cleanContactPerson_dry rows :
  query db (trace w) "medic/facilities_by_contact" (facilities_by_contact pid)
    = Resolves rows ->
  rows <> [] ->
  fs_writeFile (trace w ++ lookup_events pid rows) (audit_file logdir pid)
    (map snd rows) = None ->
  dryrun = true ->
  cleanContactPerson fs_writeFile db dryrun logdir person w
  = (Fulfilled (Some person),
     {| heap := heap_stripped rows w;
        trace := trace w ++ lookup_events pid rows ++ audit_events logdir pid rows
                 ++ [EvLog [JStr "Dryrun : not removing contact links."]];
        stdin := stdin w |}).
Proof.
  intros Hq Hne Hfs Hdry. rewrite (cleanContactPerson_to_audit rows) // Hdry.
  apply catch_fulfilled.
  erewrite then_fulfilled; last first.
  { apply writeDocsToFile_written.
    - by apply fetched_nonempty.
    - by rewrite /= fetched_objects. }
  erewrite then_fulfilled; last by apply removeContact_dryrun.
  rewrite /resolve /audit_events /= fetched_objects fetched_length.
  by rewrite -/(heap_stripped rows w) -!app_assoc.
Qed.

Lemma cleanContactPerson_store_failed rows reason :
  query db (trace w) "medic/facilities_by_contact" (facilities_by_contact pid)
    = Resolves rows ->
  rows <> [] ->
  fs_writeFile (trace w ++ lookup_events pid rows) (audit_file logdir pid)
    (map snd rows) = None ->
  dryrun = false ->
  bulkDocs db (trace w ++ lookup_events pid rows ++ audit_events logdir pid rows)
    (map (delete "contact") (map snd rows)) = Rejects reason ->
  cleanContactPerson fs_writeFile db dryrun logdir person w
  = (Rejected reason,
     {| heap := heap_stripped rows w;
        trace := trace w ++ lookup_events pid rows ++ audit_events logdir pid rows
                 ++ [EvBulkDocs (map (delete "contact") (map snd rows));
                     EvLog [JStr ("Error when removing contact " +:+ ToString pid)];
                     EvLog [reason]];
        stdin := stdin w |}).
Proof.
  intros Hq Hne Hfs Hdry Hb. rewrite (cleanContactPerson_to_audit rows) // Hdry.
  erewrite catch_rejected; last first.
  { erewrite then_fulfilled; last first.
    { apply writeDocsToFile_written.
      - by apply fetched_nonempty.
      - by rewrite /= fetched_objects. }
    erewrite then_rejected; first done.
    apply removeContact_rejected.
    rewrite /= -/(heap_stripped rows w) stripped_objects.
    by rewrite fetched_objects fetched_length -/(audit_events logdir pid rows) -app_assoc. }
  rewrite /then_ /field /console_log /throw /emit /=.
  rewrite -/(heap_stripped rows w) person_id_stripped stripped_objects.
  by rewrite fetched_objects fetched_length /audit_events -!app_assoc.
Qed.

Lemma cleanContactPerson_stripped rows result :
  query db (trace w) "medic/facilities_by_contact" (facilities_by_contact pid)
    = Resolves rows ->
  rows <> [] ->
  fs_writeFile (trace w ++ lookup_events pid rows) (audit_file logdir pid)
    (map snd rows) = None ->
  dryrun = false ->
  bulkDocs db (trace w ++ lookup_events pid rows ++ audit_events logdir pid rows)
    (map (delete "contact") (map snd rows)) = Resolves result ->
  cleanContactPerson fs_writeFile db dryrun logdir person w
  = (Fulfilled (Some person),
     {| heap := heap_stripped rows w;
        trace := trace w ++ lookup_events pid rows ++ audit_events logdir pid rows
                 ++ [EvBulkDocs (map (delete "contact") (map snd rows));
                     EvLog [JStr ("Removed contact " +:+ ToString pid +:+ " from "
                                  +:+ pretty (length rows) +:+ " facilities")];
                     EvLog [JArr result]];
        stdin := stdin w |}).
Proof.
  intros Hq Hne Hfs Hdry Hb. rewrite (cleanContactPerson_to_audit rows) // Hdry.
  apply catch_fulfilled.
  erewrite then_fulfilled; last first.
  { apply writeDocsToFile_written.
    - by apply fetched_nonempty.
    - by rewrite /= fetched_objects. }
  erewrite then_fulfilled; last first.
  { apply removeContact_resolved.
    rewrite /= -/(heap_stripped rows w) stripped_objects.
    by rewrite fetched_objects fetched_length -/(audit_events logdir pid rows) -app_assoc. }
  rewrite /resolve /=.
  rewrite -/(heap_stripped rows w) person_id_stripped stripped_objects.
  by rewrite fetched_objects fetched_length /audit_events -!app_assoc.
Qed.

End Steps.

(** ** Orderly computations *)

Create HintDb orderly.

Lemma orderly_resolve {A} (a : A) : orderly (resolve a).
Proof. intros w. split; last done. exists []. by rewrite app_nil_r. Qed.

Lemma orderly_throw {A} e : orderly (@throw A e).
Proof. intros w. split; last done. exists []. by rewrite app_nil_r. Qed.

Lemma orderly_then {A B} (p : M A) (f : A -> M B) :
  orderly p -> (forall a, orderly (f a)) -> orderly (then_ p f).
Proof.
  intros Hp Hf w. unfold then_.
  destruct (Hp w) as [[seg Hseg] [Hex Hpend]].
  destruct (p w) as [[a|e| |] w1]; cbn [fst snd] in *; [|by eauto|done..].
  destruct (Hf a w1) as [[seg' Hseg'] Hex']. split; last done.
  exists (seg ++ seg'). by rewrite Hseg' Hseg app_assoc.
Qed.

Lemma orderly_catch {A} (p : M A) h :
  orderly p -> (forall e, orderly (h e)) -> orderly (catch_ p h).
Proof.
  intros Hp Hh w. unfold catch_.
  destruct (Hp w) as [[seg Hseg] [Hex Hpend]].
  destruct (p w) as [[a|e| |] w1]; cbn [fst snd] in *; [by eauto| |done..].
  destruct (Hh e w1) as [[seg' Hseg'] Hex']. split; last done.
  exists (seg ++ seg'). by rewrite Hseg' Hseg app_assoc.
Qed.

Lemma orderly_if {A} (b : bool) (p q : M A) :
  orderly p -> orderly q -> orderly (if b then p else q).
Proof. by destruct b. Qed.

Lemma orderly_field l k : orderly (field l k).
Proof. intros w. split; last done. exists []. by rewrite app_nil_r. Qed.

Lemma orderly_modify l f : orderly (modify l f).
Proof. intros w. split; last done. exists []. by rewrite app_nil_r. Qed.

Lemma orderly_alloc o : orderly (alloc o).
Proof. intros w. split; last done. exists []. by rewrite app_nil_r. Qed.

Lemma orderly_console_log args : orderly (console_log args).
Proof. intros w. split; last done. by exists [EvLog args]. Qed.

#[export] Hint Resolve orderly_resolve orderly_throw orderly_then orderly_catch
  orderly_if orderly_field orderly_modify orderly_alloc orderly_console_log
  : orderly.

Lemma orderly_map_ {A B} (f : A -> M B) l :
  (forall a, orderly (f a)) -> orderly (map_ f l).
Proof. intros Hf. induction l; cbn [map_]; eauto 6 with orderly. Qed.

Lemma orderly_each_ {A} (f : A -> M unit) l :
  (forall a, orderly (f a)) -> orderly (each_ f l).
Proof. intros Hf. unfold each_. auto using orderly_map_ with orderly. Qed.

Lemma orderly_db_query db view options : orderly (db_query db view options).
Proof.
  intros w. unfold db_query.
  destruct (query db (trace w) view options) as [rows|e].
  - rewrite map_alloc. split; last done. by eexists.
  - split; last done. by eexists.
Qed.

Lemma orderly_db_bulkDocs db docs : orderly (db_bulkDocs db docs).
Proof.
  intros w. unfold db_bulkDocs.
  destruct (bulkDocs db (trace w) _); (split; [by eexists | done]).
Qed.

#[export] Hint Resolve orderly_map_ orderly_each_ orderly_db_query orderly_db_bulkDocs
  : orderly.

Lemma orderly_isContactFor db pid : orderly (isContactFor db pid).
Proof. unfold isContactFor. eauto 10 with orderly. Qed.

Lemma orderly_writeDocsToFile fs_writeFile filepath docsList :
  orderly (writeDocsToFile fs_writeFile filepath docsList).
Proof.
  unfold writeDocsToFile. destruct (length docsList =? 0)%nat; first auto with orderly.
  intros w. destruct (fs_writeFile (trace w) filepath _) as [err|].
  - split; last done. by eexists.
  - split; last done. eexists. cbn. by rewrite -app_assoc.
Qed.

Lemma orderly_removeContact db dryrun person facilitiesList :
  orderly (removeContact db dryrun person facilitiesList).
Proof. unfold removeContact. destruct dryrun; eauto 12 with orderly. Qed.

#[export] Hint Resolve orderly_isContactFor orderly_writeDocsToFile
  orderly_removeContact : orderly.

Lemma orderly_cleanContactPerson fs_writeFile db dryrun logdir person :
  orderly (cleanContactPerson fs_writeFile db dryrun logdir person).
Proof.
  unfold cleanContactPerson.
  apply orderly_then; first auto with orderly. intros pid.
  apply orderly_catch; last eauto 8 with orderly.
  apply orderly_then; first auto with orderly. intros facilities.
  apply orderly_if; eauto 10 with orderly.
Qed.

(** ** The queue of persons *)

Section Queue.

Variable clean : loc -> M (option loc).

(** The chain of promises built by the loop runs the cascades in turn. *)
Lemma fold_then persons (promise : M (option loc)) w :
  fold_left (fun (promise : M (option loc)) person => do! promise in clean person)
    persons promise w
  = match promise w with
    | (Fulfilled last, w1) => in_turn clean persons last w1
    | (Rejected e, w1) => (Rejected e, w1)
    | (Exited, w1) => (Exited, w1)
    | (Pending, w1) => (Pending, w1)
    end.
Proof.
  revert promise. induction persons as [|p rest IH]; intros promise.
  - cbn. by destruct (promise w) as [[]].
  - cbn [fold_left in_turn]. rewrite IH /then_.
    by destruct (promise w) as [[last| | |] w1].
Qed.

Lemma sequential_trace persons w segs w' :
  sequential clean persons w segs w' -> trace w' = trace w ++ concat segs.
Proof.
  induction 1 as [|p rest w r w1 seg segs w2 _ Hseg _ IH].
  - by rewrite app_nil_r.
  - by rewrite IH Hseg /= app_assoc.
Qed.

Lemma sequential_length persons w segs w' :
  sequential clean persons w segs w' -> length segs = length persons.
Proof. induction 1; cbn; congruence. Qed.

(** A rejection stops the queue where it happens. *)
Lemma in_turn_rejected done p rest last w segs w1 e w2 :
  sequential clean done w segs w1 ->
  clean p w1 = (Rejected e, w2) ->
  in_turn clean (done ++ p :: rest) last w = (Rejected e, w2).
Proof.
  intros Hseq Hp. revert last.
  induction Hseq as [|q done w r w1 seg segs w' Hq _ _ IH]; intros last.
  - by rewrite /= Hp.
  - rewrite /= Hq. by apply IH.
Qed.

Hypothesis clean_orderly : forall p, orderly (clean p).

Lemma in_turn_cases persons last w :
  (exists segs last',
      in_turn clean persons last w = (Fulfilled last', (in_turn clean persons last w).2)
      /\ sequential clean persons w segs (in_turn clean persons last w).2)
  \/ (exists done p rest segs w1 e seg,
        persons = done ++ p :: rest
        /\ sequential clean done w segs w1
        /\ clean p w1 = (Rejected e, (in_turn clean persons last w).2)
        /\ in_turn clean persons last w = (Rejected e, (in_turn clean persons last w).2)
        /\ trace (in_turn clean persons last w).2 = trace w1 ++ seg).
Proof.
  revert last w. induction persons as [|p rest IH]; intros last w.
  - left. exists [], last. split; [done | constructor].
  - cbn [in_turn].
    destruct (clean_orderly p w) as [[seg Hseg] [Hex Hpend]].
    destruct (clean p w) as [[r|e| |] w1] eqn:Hp; cbn [fst snd] in *; [| |done..].
    + destruct (IH r w1) as [(segs & last' & Hrun & Hseq)
                            |(done & q & rest' & segs & w2 & e & seg' & -> & Hseq & Hq & Hrun & Htr)].
      * left. exists (seg :: segs), last'. split; first done.
        by econstructor.
      * right. exists (p :: done), q, rest', (seg :: segs), w2, e, seg'.
        split_and!; try done. by econstructor.
    + right. exists [], p, rest, [], w, e, seg.
      split_and!; try done. constructor.
Qed.

End Queue.

(** ** Tombstones: [deleteDocs] *)

Lemma emitted_app w w' evs : trace w' = trace w ++ evs -> emitted w w' = evs.
Proof. unfold emitted. intros ->. by rewrite drop_app_length. Qed.

Lemma deleteDocs_run db docs w :
  let h := update_all (insert "_deleted" (JBool true)) docs (heap w) in
  let written := map (get_obj h) docs in
  deleteDocs false db docs w
  = match bulkDocs db (trace w) written with
    | Rejects e =>
        (Rejected e,
         {| heap := h; trace := trace w ++ [EvBulkDocs written]; stdin := stdin w |})
    | Resolves result =>
        (Fulfilled (StoreResult result),
         {| heap := h;
            trace := trace w
                     ++ [EvBulkDocs written;
                         EvLog [JStr ("Deleted : " +:+ pretty (length result) +:+ ":")];
                         EvLog [JArr result]];
            stdin := stdin w |})
    end.
Proof.
  intros h written. unfold deleteDocs.
  erewrite then_fulfilled; last by apply map_modify.
  rewrite /then_ /db_bulkDocs /= -/h -/written.
  destruct (bulkDocs db (trace w) written) as [result|e]; last done.
  by rewrite /console_log /resolve /emit /= -!app_assoc.
Qed.

(** C1. With dry-run off, [deleteDocs] issues one write to the store, of the
    documents it was given, one for one and each with [_deleted] set to
    [true] and its other fields kept (a soft delete: the documents in memory
    are marked too and nothing else is sent to the store).  With dry-run on,
    nothing is sent to the store, no document changes, and the documents
    given are handed back as they are. *)
Theorem deleteDocs_soft_delete (db : database) (docs : list loc) (w : world) :
  let written :=
    map (fun d => <["_deleted" := JBool true]> (get_obj (heap w) d)) docs in
  let wet := deleteDocs false db docs w in
  let dry := deleteDocs true db docs w in
  (exists rest,
      trace wet.2 = trace w ++ EvBulkDocs written :: rest
      /\ Forall (fun e => is_store_write e = false) rest)
  /\ Forall tombstone written
  /\ length written = length docs
  /\ Forall (fun d => tombstone (get_obj (heap wet.2) d)) docs
  /\ dry.1 = Fulfilled (Untouched docs)
  /\ heap dry.2 = heap w
  /\ Forall (fun e => is_store_write e = false) (emitted w dry.2).
Proof.
  intros written wet dry.
  assert (map (get_obj (update_all (insert "_deleted" (JBool true)) docs (heap w))) docs
          = written) as Hwritten.
  { rewrite map_get_obj_update_all; first by rewrite map_map.
    intros o. apply insert_insert_eq. }
  assert (Forall tombstone written) as Htomb.
  { apply Forall_map, Forall_forall. intros d _. apply lookup_insert_eq. }
  split_and!.
  - subst wet. rewrite deleteDocs_run Hwritten.
    destruct (bulkDocs db (trace w) written) as [result|e]; cbn [snd trace].
    + eexists. split; first done. by repeat constructor.
    + eexists. split; first done. constructor.
  - done.
  - by rewrite length_map.
  - assert (Forall (fun d => tombstone
              (get_obj (update_all (insert "_deleted" (JBool true)) docs (heap w)) d))
              docs) as Hmem.
    { apply Forall_forall. intros d Hd.
      rewrite get_obj_update_all; last by intros; apply insert_insert_eq.
      rewrite decide_True //. apply lookup_insert_eq. }
    subst wet. rewrite deleteDocs_run.
    by destruct (bulkDocs db (trace w) _).
  - done.
  - done.
  - rewrite (emitted_app _ _ [EvLog [JStr "Dryrun : not deleting."]]) //.
    by repeat constructor.
Qed.

(** ** Removing the contact: [removeContact] *)

Lemma removeContact_sent db dryrun person facilitiesList w :
  map (get_obj (heap (removeContact db dryrun person facilitiesList w).2)) facilitiesList
  = map (delete "contact") (map (get_obj (heap w)) facilitiesList).
Proof.
  rewrite -(map_get_obj_update_all (delete "contact")); last by intros; apply delete_delete_eq.
  destruct dryrun.
  - by rewrite removeContact_dryrun.
  - destruct (bulkDocs db (trace w)
                (map (get_obj (update_all (delete "contact") facilitiesList (heap w)))
                   facilitiesList)) as [result|e] eqn:Hb.
    + by erewrite removeContact_resolved.
    + by erewrite removeContact_rejected.
Qed.

(** C10. [removeContact] deletes the [contact] field of every facility of
    its list before it looks at the dry-run flag: whatever the flag, the
    facility objects the caller holds have lost the field afterwards (and no
    other object has changed); under dry-run only the write to the store is
    left out, and the person is handed back. *)
Theorem removeContact_strips_even_dry (db : database) (person : loc)
    (facilitiesList : list loc) (w : world) :
  (forall dryrun,
      let w' := (removeContact db dryrun person facilitiesList w).2 in
      Forall (fun f => get_obj (heap w') f = delete "contact" (get_obj (heap w) f)
                       /\ get_obj (heap w') f !! "contact" = None) facilitiesList
      /\ forall l, l ∉ facilitiesList -> heap w' !! l = heap w !! l)
  /\ (removeContact db true person facilitiesList w).1 = Fulfilled person
  /\ emitted w (removeContact db true person facilitiesList w).2
     = [EvLog [JStr "Dryrun : not removing contact links."]].
Proof.
  split_and!.
  - intros dryrun w'.
    assert (heap w' = update_all (delete "contact") facilitiesList (heap w)) as ->.
    { subst w'. destruct dryrun.
      - by rewrite removeContact_dryrun.
      - destruct (bulkDocs db (trace w)
                    (map (get_obj (update_all (delete "contact") facilitiesList (heap w)))
                       facilitiesList)) as [result|e] eqn:Hb.
        + by erewrite removeContact_resolved.
        + by erewrite removeContact_rejected. }
    split.
    + apply Forall_forall. intros f Hf.
      rewrite get_obj_update_all; last by intros; apply delete_delete_eq.
      rewrite decide_True //. split; first done. apply lookup_delete_eq.
    + intros l Hl. by apply lookup_update_all_other.
  - by rewrite removeContact_dryrun.
  - rewrite removeContact_dryrun. by apply emitted_app.
Qed.

(** C7, as stated, fails: the contact of a facility is not set to [null].
    The facility [F1] held at location 4 has the contact ["P1"]; after
    [removeContact] the field is neither [null] in memory nor [null] in the
    document sent to the store: it is gone. *)
Lemma removeContact_contact_not_null :
  let w := Sample.with_facility in
  let r := removeContact Sample.db false 1%positive [4%positive] w in
  get_obj (heap w) 4%positive !! "contact" = Some (JStr "P1")
  /\ r.1 = Fulfilled 1%positive
  /\ get_obj (heap r.2) 4%positive !! "contact" <> Some JNull
  /\ exists sent,
       trace r.2 !! 0%nat = Some (EvBulkDocs [sent])
       /\ sent !! "contact" <> Some JNull.
Proof.
  cbv zeta. split_and!.
  - by vm_compute.
  - by vm_compute.
  - by vm_compute.
  - exists (delete "contact" Sample.F1). split; by vm_compute.
Qed.

(** C7, amended. [removeContact] clears the contact of every facility of
    its list by deleting the [contact] field: the field is absent from every
    facility of the list sent in the bulk write, which is the first thing
    sent, and the operation hands back the person when the store accepts
    the write (and always under dry-run). *)
Theorem removeContact_deletes_contact (db : database) (person : loc)
    (facilitiesList : list loc) (w : world) :
  let sent := map (delete "contact") (map (get_obj (heap w)) facilitiesList) in
  let r := removeContact db false person facilitiesList w in
  Forall (fun o => o !! "contact" = None) sent
  /\ (exists rest, trace r.2 = trace w ++ EvBulkDocs sent :: rest)
  /\ r.1 = match bulkDocs db (trace w) sent with
           | Resolves _ => Fulfilled person
           | Rejects e => Rejected e
           end
  /\ (removeContact db true person facilitiesList w).1 = Fulfilled person.
Proof.
  intros sent r.
  assert (map (get_obj (update_all (delete "contact") facilitiesList (heap w)))
            facilitiesList = sent) as Hsent.
  { apply map_get_obj_update_all. intros o. apply delete_delete_eq. }
  split_and!.
  - apply Forall_map, Forall_forall. intros o _. apply lookup_delete_eq.
  - subst r. destruct (bulkDocs db (trace w) sent) as [result|e] eqn:Hb.
    + erewrite removeContact_resolved; last by rewrite Hsent.
      rewrite Hsent. by eexists.
    + erewrite removeContact_rejected; last by rewrite Hsent.
      rewrite Hsent. by eexists.
  - subst r. destruct (bulkDocs db (trace w) sent) as [result|e] eqn:Hb.
    + by erewrite removeContact_resolved; last by rewrite Hsent.
    + by erewrite removeContact_rejected; last by rewrite Hsent.
  - by rewrite removeContact_dryrun.
Qed.

(** ** The confirmation gate: [userConfirm] *)

(** The validator lets through [yes], [no] and their abbreviations. *)
Lemma yesno_validator_accepts :
  Forall (fun s => regex_test yesno_validator s = true) ["yes"; "ye"; "y"; "no"; "n"].
Proof. repeat constructor. Qed.

Lemma userConfirm_yes message :
  userConfirm message (Sample.typing ["yes"])
  = (Fulfilled tt,
     {| heap := ∅; trace := [EvLog [JStr message]; EvPrompt (inr "yes")]; stdin := [] |}).
Proof. done. Qed.

(** A blank line stands for [yes]. *)
Lemma userConfirm_blank message :
  userConfirm message (Sample.typing [""])
  = (Fulfilled tt,
     {| heap := ∅; trace := [EvLog [JStr message]; EvPrompt (inr "yes")]; stdin := [] |}).
Proof. done. Qed.

Lemma userConfirm_no message :
  (userConfirm message (Sample.typing ["no"])).1 = Exited.
Proof. done. Qed.

(** The input ends before an answer: the callback is never called, and the
    gate neither resolves nor ends the process. *)
Lemma userConfirm_closed message :
  userConfirm message (Sample.typing [])
  = (Pending, {| heap := ∅; trace := [EvLog [JStr message]]; stdin := [] |}).
Proof. done. Qed.

(** An interrupt is an error of the input channel: the process ends. *)
Lemma userConfirm_interrupted message rest :
  userConfirm message {| heap := ∅; trace := []; stdin := Interrupt :: rest |}
  = (Exited,
     {| heap := ∅;
        trace := [EvLog [JStr message]; EvPrompt (inl (JStr "canceled"));
                  EvLog [JStr "canceled"]; EvExit];
        stdin := rest |}).
Proof. done. Qed.

(** An answer the prompt does not let through is asked again. *)
Lemma userConfirm_asks_again message :
  (userConfirm message (Sample.typing ["ok"; "yes"])).1 = Fulfilled tt.
Proof. done. Qed.

(** C8, where the code departs from it.  The answer [y] is an abbreviation
    of [yes] that the validator lets through, and yet the gate treats it as
    a refusal: it logs that the user backed out and ends the process. *)
Theorem userConfirm_y_exits (message : string) :
  regex_test yesno_validator "y" = true
  /\ userConfirm message (Sample.typing ["y"])
     = (Exited,
        {| heap := ∅;
           trace := [EvLog [JStr message]; EvPrompt (inr "y");
                     EvLog [JStr "User backed out. Exiting."]; EvExit];
           stdin := [] |}).
Proof. done. Qed.

(** ** The date filter: [filterByDate] *)

Section Dates.

Variable StringToNumber : string -> option Z.

Lemma filterByDate_run docsList t0 t1 w :
  let kept :=
    List.filter (fun d =>
      truthy (get_field (get_obj (heap w) d) "reported_date")
      && js_ge StringToNumber (get_field (get_obj (heap w) d) "reported_date") t0
      && js_lt StringToNumber (get_field (get_obj (heap w) d) "reported_date") t1)
      docsList in
  filterByDate StringToNumber docsList t0 t1 w
  = (Fulfilled kept,
     {| heap := heap w;
        trace := trace w ++ [EvLog [JStr ("Filtered by date : " +:+ pretty (length kept))]];
        stdin := stdin w |}).
Proof. done. Qed.

(** On a document whose date is a number or absent, the test of the filter
    is: a number other than zero, in the range. *)
Lemma date_test_dated o t0 t1 :
  dated o ->
  truthy (get_field o "reported_date")
  && js_ge StringToNumber (get_field o "reported_date") t0
  && js_lt StringToNumber (get_field o "reported_date") t1
  = nonzero_in_range t0 t1 o.
Proof.
  unfold dated, get_field, nonzero_in_range.
  by intros [-> | [n ->]].
Qed.

(** C9. A document whose [reported_date] is 0 is left out by the filter,
    whatever the range, also when the range contains 0: a zero date counts
    as no date. *)
Theorem filterByDate_drops_zero (docsList : list loc) (t0 t1 : Z) (w : world)
    (d : loc) :
  get_obj (heap w) d !! "reported_date" = Some (JNum 0) ->
  exists kept,
    (filterByDate StringToNumber docsList t0 t1 w).1 = Fulfilled kept
    /\ d ∉ kept.
Proof.
  intros Hd. rewrite filterByDate_run. eexists. split; first done.
  rewrite list_elem_of_In filter_In /get_field Hd /=. by intros [_ ?].
Qed.

(** C6, amended. On documents whose date is a number or absent, the filter
    keeps exactly those whose date is not zero and lies in [[t0, t1)]: a
    document dated [t0] is kept when [t0] is not zero (and the range is not
    empty), a document dated [t1] is left out, and so is a document without
    date. *)
Theorem filterByDate_nonzero_range (docsList : list loc) (t0 t1 : Z) (w : world) :
  Forall (fun d => dated (get_obj (heap w) d)) docsList ->
  exists kept,
    (filterByDate StringToNumber docsList t0 t1 w).1 = Fulfilled kept
    /\ kept = List.filter (fun d => nonzero_in_range t0 t1 (get_obj (heap w) d)) docsList
    /\ (forall d, d ∈ docsList ->
                  get_obj (heap w) d !! "reported_date" = Some (JNum t0) ->
                  t0 <> 0 -> t0 < t1 -> d ∈ kept)
    /\ (forall d, get_obj (heap w) d !! "reported_date" = Some (JNum t1) -> d ∉ kept)
    /\ (forall d, get_obj (heap w) d !! "reported_date" = None -> d ∉ kept).
Proof.
  intros Hdated. rewrite filterByDate_run. eexists. split; first done.
  assert (List.filter (fun d =>
      truthy (get_field (get_obj (heap w) d) "reported_date")
      && js_ge StringToNumber (get_field (get_obj (heap w) d) "reported_date") t0
      && js_lt StringToNumber (get_field (get_obj (heap w) d) "reported_date") t1)
      docsList
    = List.filter (fun d => nonzero_in_range t0 t1 (get_obj (heap w) d)) docsList) as ->.
  { apply filter_ext_in. intros d Hd. apply date_test_dated.
    rewrite Forall_forall in Hdated. by apply Hdated, list_elem_of_In. }
  split_and!; first done.
  - intros d Hd Hdate Hnz Hlt.
    rewrite list_elem_of_In filter_In -list_elem_of_In /nonzero_in_range Hdate.
    split; first done.
    apply andb_true_intro; split; [apply andb_true_intro; split|].
    + by apply negb_true_iff, Z.eqb_neq.
    + by apply Z.leb_refl.
    + by apply Z.ltb_lt.
  - intros d Hdate. rewrite list_elem_of_In filter_In /nonzero_in_range Hdate.
    intros [_ [_ ?%Z.ltb_lt]%andb_prop]. lia.
  - intros d Hdate. rewrite list_elem_of_In filter_In /nonzero_in_range Hdate.
    by intros [_ ?].
Qed.

End Dates.

Lemma filterByDate_drops_zero_witness :
  exists kept,
    (filterByDate Sample.no_number [1%positive; 2%positive] (-1) 10 Sample.start).1
    = Fulfilled kept
    /\ 2%positive ∉ kept.
Proof.
  apply (filterByDate_drops_zero Sample.no_number
           [1%positive; 2%positive] (-1) 10 Sample.start 2%positive).
  by vm_compute.
Defined.

Lemma filterByDate_nonzero_range_witness :
  exists kept,
    (filterByDate Sample.no_number [1%positive; 2%positive; 3%positive] 5 10
       Sample.start).1 = Fulfilled kept
    /\ kept = List.filter
                (fun d => nonzero_in_range 5 10 (get_obj (heap Sample.start) d))
                [1%positive; 2%positive; 3%positive]
    /\ (forall d, d ∈ [1%positive; 2%positive; 3%positive] ->
                  get_obj (heap Sample.start) d !! "reported_date" = Some (JNum 5) ->
                  5 <> 0 -> 5 < 10 -> d ∈ kept)
    /\ (forall d, get_obj (heap Sample.start) d !! "reported_date" = Some (JNum 10) ->
                  d ∉ kept)
    /\ (forall d, get_obj (heap Sample.start) d !! "reported_date" = None -> d ∉ kept).
Proof.
  apply (filterByDate_nonzero_range Sample.no_number
           [1%positive; 2%positive; 3%positive] 5 10 Sample.start).
  repeat (apply List.Forall_cons; first (unfold dated; vm_compute; eauto)).
  apply List.Forall_nil.
Defined.

(** C6, as stated, fails at the lower bound 0: the person [P2] is dated 0,
    which lies in [[0, 10)] and is the lower bound itself, and the filter
    leaves it out. *)
Lemma filterByDate_zero_lower_bound_excluded :
  get_obj (heap Sample.start) 2%positive !! "reported_date" = Some (JNum 0)
  /\ 0 <= 0 < 10
  /\ (filterByDate Sample.no_number [2%positive] 0 10 Sample.start).1 = Fulfilled [].
Proof. split_and!; by vm_compute. Qed.

(** ** The cascade of one person: [cleanContactPerson] *)

(** Splits [l = before ++ e :: after], for an explicit [l], into the
    positions [e] can have in [l]. *)
Ltac locate_event :=
  repeat match goal with
         | H : _ = ?before ++ _ :: _ |- _ =>
             destruct before as [|? before]; simplify_eq/=
         end.

(** C5. Writing the snapshot of an empty list of documents touches no file
    and hands the list back; and for a person no facility refers to, the
    cascade does nothing but the lookup: no audit file, no write to the
    store, no change in memory. *)
Theorem nothing_to_clean (fs_writeFile : list event -> string -> list obj -> option jsval)
    (db : database) (dryrun : bool) (logdir : string) (person : loc) (w : world)
    (filepath : string) :
  query db (trace w) "medic/facilities_by_contact"
    (facilities_by_contact (person_id w person)) = Resolves [] ->
  writeDocsToFile fs_writeFile filepath [] w = (Fulfilled [], w)
  /\ cleanContactPerson fs_writeFile db dryrun logdir person w
     = (Fulfilled None,
        {| heap := heap w;
           trace := trace w
                    ++ [EvQuery "medic/facilities_by_contact"
                          (facilities_by_contact (person_id w person))];
           stdin := stdin w |}).
Proof.
  intros Hq. split; first done. by apply cleanContactPerson_no_facility.
Qed.

Lemma nothing_to_clean_witness :
  writeDocsToFile Sample.fs_ok "logs/cleaned_facilities_P3.json" [] Sample.start
  = (Fulfilled [], Sample.start)
  /\ cleanContactPerson Sample.fs_ok Sample.db false "logs" 3%positive Sample.start
     = (Fulfilled None,
        {| heap := heap Sample.start;
           trace := trace Sample.start
                    ++ [EvQuery "medic/facilities_by_contact"
                          (facilities_by_contact (person_id Sample.start 3%positive))];
           stdin := stdin Sample.start |}).
Proof.
  apply (nothing_to_clean Sample.fs_ok Sample.db false "logs" 3%positive Sample.start
           "logs/cleaned_facilities_P3.json").
  by vm_compute.
Defined.

(** C2. In the cascade of a person, whatever the store and the file system
    answer: when facilities refer to the person, their list as the store
    gave it is written to the audit file of the person; and a write to the
    store only comes after that file has been written without error, and is
    the write of that same list with the contacts removed. *)
Theorem audit_before_store_write
    (fs_writeFile : list event -> string -> list obj -> option jsval)
    (db : database) (dryrun : bool) (logdir : string) (person : loc) (w : world) :
  is_Some (heap w !! person) ->
  let pid := person_id w person in
  let r := cleanContactPerson fs_writeFile db dryrun logdir person w in
  let evs := emitted w r.2 in
  trace r.2 = trace w ++ evs
  /\ (forall rows,
        query db (trace w) "medic/facilities_by_contact" (facilities_by_contact pid)
          = Resolves rows ->
        rows <> [] ->
        exists err, EvWriteFile (audit_file logdir pid) (map snd rows) err ∈ evs)
  /\ (forall before sent after,
        evs = before ++ EvBulkDocs sent :: after ->
        exists rows,
          query db (trace w) "medic/facilities_by_contact" (facilities_by_contact pid)
            = Resolves rows
          /\ rows <> []
          /\ EvWriteFile (audit_file logdir pid) (map snd rows) None ∈ before
          /\ sent = map (delete "contact") (map snd rows)).
Proof.
  intros Hlive pid r evs.
  destruct (orderly_cleanContactPerson fs_writeFile db dryrun logdir person w)
    as [[seg Hseg] _].
  fold r in Hseg. pose proof (emitted_app _ _ _ Hseg) as Hevs. fold evs in Hevs.
  split; first by rewrite Hevs.
  clear Hseg Hevs.
  destruct (query db (trace w) "medic/facilities_by_contact" (facilities_by_contact pid))
    as [rows|e] eqn:Hq.
  2:{ assert (evs = _) as -> by (subst evs r;
        erewrite cleanContactPerson_lookup_failed by done; by apply emitted_app).
      split; first done. intros before sent after H. locate_event. }
  destruct rows as [|row rows].
  { assert (evs = _) as -> by (subst evs r;
      erewrite cleanContactPerson_no_facility by done; by apply emitted_app).
    split; first by intros ? [= <-] ?. intros before sent after H. locate_event. }
  destruct (fs_writeFile (trace w ++ lookup_events pid (row :: rows))
              (audit_file logdir pid) (map snd (row :: rows))) as [err|] eqn:Hfs.
  { assert (evs = _) as -> by (subst evs r;
      erewrite cleanContactPerson_audit_failed by done; by apply emitted_app).
    split.
    - intros ? [= <-] _. exists (Some err). cbn. set_solver.
    - intros before sent after H. locate_event. }
  destruct dryrun eqn:Hdry.
  { assert (evs = _) as -> by (subst evs r;
      erewrite cleanContactPerson_dry by done; by apply emitted_app).
    split.
    - intros ? [= <-] _. exists None. cbn. set_solver.
    - intros before sent after H. locate_event. }
  destruct (bulkDocs db
              (trace w ++ lookup_events pid (row :: rows)
               ++ audit_events logdir pid (row :: rows))
              (map (delete "contact") (map snd (row :: rows)))) as [result|e] eqn:Hb.
  - assert (evs = _) as -> by (subst evs r;
      erewrite cleanContactPerson_stripped by done; by apply emitted_app).
    split.
    + intros ? [= <-] _. exists None. cbn. set_solver.
    + intros before sent after H. locate_event.
      exists (row :: rows). split_and!; try done. cbn. set_solver.
  - assert (evs = _) as -> by (subst evs r;
      erewrite cleanContactPerson_store_failed by done; by apply emitted_app).
    split.
    + intros ? [= <-] _. exists None. cbn. set_solver.
    + intros before sent after H. locate_event.
      exists (row :: rows). split_and!; try done. cbn. set_solver.
Qed.

Lemma audit_before_store_write_witness :
  let pid := person_id Sample.start 1%positive in
  let r := cleanContactPerson Sample.fs_ok Sample.db false "logs" 1%positive
             Sample.start in
  let evs := emitted Sample.start r.2 in
  trace r.2 = trace Sample.start ++ evs
  /\ (forall rows,
        query Sample.db (trace Sample.start) "medic/facilities_by_contact"
          (facilities_by_contact pid) = Resolves rows ->
        rows <> [] ->
        exists err, EvWriteFile (audit_file "logs" pid) (map snd rows) err ∈ evs)
  /\ (forall before sent after,
        evs = before ++ EvBulkDocs sent :: after ->
        exists rows,
          query Sample.db (trace Sample.start) "medic/facilities_by_contact"
            (facilities_by_contact pid) = Resolves rows
          /\ rows <> []
          /\ EvWriteFile (audit_file "logs" pid) (map snd rows) None ∈ before
          /\ sent = map (delete "contact") (map snd rows)).
Proof.
  apply (audit_before_store_write Sample.fs_ok Sample.db false "logs" 1%positive
           Sample.start).
  vm_compute. eauto.
Defined.

(** ** The queue: [cleanContactPersons] *)

Lemma cleanContactPersons_in_turn fs_writeFile db dryrun logdir persons w :
  cleanContactPersons fs_writeFile db dryrun logdir persons w
  = match in_turn (cleanContactPerson fs_writeFile db dryrun logdir) persons None w with
    | (Fulfilled _, w') => (Fulfilled persons, w')
    | (Rejected e, w') => (Rejected e, w')
    | (Exited, w') => (Exited, w')
    | (Pending, w') => (Pending, w')
    end.
Proof.
  rewrite /cleanContactPersons /then_ fold_then /resolve.
  by destruct (in_turn _ persons None w) as [[]].
Qed.

(** C3. [cleanContactPersons] handles the persons one at a time, in the
    order of the list: the cascade of a person runs to its end from the
    world the cascade before it left, so that the trace is the events of the
    first person, then those of the second, and so on, never mixed.  When
    all cascades fulfil, the result is the list of persons it was given;
    otherwise the queue stops at the first cascade that rejects. *)
Theorem cleanContactPersons_one_at_a_time
    (fs_writeFile : list event -> string -> list obj -> option jsval)
    (db : database) (dryrun : bool) (logdir : string) (persons : list loc)
    (w : world) :
  let clean := cleanContactPerson fs_writeFile db dryrun logdir in
  let r := cleanContactPersons fs_writeFile db dryrun logdir persons w in
  (exists segs,
      r.1 = Fulfilled persons
      /\ sequential clean persons w segs r.2
      /\ length segs = length persons
      /\ trace r.2 = trace w ++ concat segs)
  \/ (exists done p rest segs w1 e seg,
        persons = done ++ p :: rest
        /\ sequential clean done w segs w1
        /\ clean p w1 = (Rejected e, r.2)
        /\ r.1 = Rejected e
        /\ trace r.2 = trace w ++ concat segs ++ seg).
Proof.
  intros clean r. subst r. rewrite cleanContactPersons_in_turn.
  destruct (in_turn_cases clean (orderly_cleanContactPerson _ _ _ _) persons None w)
    as [(segs & last & Hrun & Hseq)
       |(done & p & rest & segs & w1 & e & seg & -> & Hseq & Hp & Hrun & Htr)].
  - left. exists segs. rewrite Hrun. cbn [fst snd].
    split_and!; eauto using sequential_trace, sequential_length.
  - right. exists done, p, rest, segs, w1, e, seg. rewrite Hrun. cbn [fst snd].
    split_and!; try done.
    by rewrite Htr (sequential_trace _ _ _ _ _ Hseq) app_assoc.
Qed.

(** C4, amended. When a step of the cascade of a person fails by rejecting
    (the store rejects the lookup of the facilities, the audit file cannot
    be written, or the store rejects the bulk write), the persons before it
    having been handled, [cleanContactPersons] rejects with the reason of
    the failure: the last two things it does are to log the identifier of
    that person and the reason, and it stops in the world in which the
    cascade of that person stopped, so that no later person of the list is
    touched. *)
Theorem cleanContactPersons_fails_fast
    (fs_writeFile : list event -> string -> list obj -> option jsval)
    (db : database) (dryrun : bool) (logdir : string)
    (done : list loc) (p : loc) (rest : list loc)
    (w : world) (segs : list (list event)) (w1 : world) (reason : jsval) :
  sequential (cleanContactPerson fs_writeFile db dryrun logdir) done w segs w1 ->
  is_Some (heap w1 !! p) ->
  step_fails fs_writeFile db dryrun logdir p w1 reason ->
  exists w2 evs,
    cleanContactPerson fs_writeFile db dryrun logdir p w1 = (Rejected reason, w2)
    /\ cleanContactPersons fs_writeFile db dryrun logdir (done ++ p :: rest) w
       = (Rejected reason, w2)
    /\ trace w2
       = trace w ++ concat segs ++ evs
         ++ [EvLog [JStr ("Error when removing contact "
                          +:+ ToString (person_id w1 p))];
             EvLog [reason]].
Proof.
  intros Hseq Hlive Hfail.
  assert (exists w2 evs,
    cleanContactPerson fs_writeFile db dryrun logdir p w1 = (Rejected reason, w2)
    /\ trace w2 = trace w1 ++ evs
         ++ [EvLog [JStr ("Error when removing contact "
                          +:+ ToString (person_id w1 p))];
             EvLog [reason]]) as (w2 & evs & Hp & Htr).
  { destruct Hfail as [Hq | rows err Hq Hne Hfs -> | rows Hq Hne Hfs Hdry Hb].
    - eexists _, [_; _; _]. split; first by apply cleanContactPerson_lookup_failed.
      done.
    - eexists _, (lookup_events _ rows ++ [_]).
      split; first by eapply cleanContactPerson_audit_failed.
      by rewrite /= -!app_assoc.
    - eexists _, (lookup_events _ rows ++ audit_events _ _ rows ++ [_]).
      split; first by eapply cleanContactPerson_store_failed.
      by rewrite /= -!app_assoc. }
  exists w2, evs. split_and!; first done.
  - rewrite cleanContactPersons_in_turn.
    by erewrite in_turn_rejected.
  - by rewrite Htr (sequential_trace _ _ _ _ _ Hseq) -!app_assoc.
Qed.

Lemma cleanContactPersons_fails_fast_witness :
  exists w2 evs,
    cleanContactPerson Sample.fs_ok Sample.flaky_db false "logs" 2%positive
      Sample.after_P1 = (Rejected (JStr "timeout"), w2)
    /\ cleanContactPersons Sample.fs_ok Sample.flaky_db false "logs"
         ([1%positive] ++ 2%positive :: [3%positive]) Sample.start
       = (Rejected (JStr "timeout"), w2)
    /\ trace w2
       = trace Sample.start
         ++ concat [emitted Sample.start Sample.after_P1] ++ evs
         ++ [EvLog [JStr ("Error when removing contact "
                          +:+ ToString (person_id Sample.after_P1 2%positive))];
             EvLog [JStr "timeout"]].
Proof.
  apply (cleanContactPersons_fails_fast Sample.fs_ok Sample.flaky_db false "logs"
           [1%positive] 2%positive [3%positive] Sample.start
           [emitted Sample.start Sample.after_P1] Sample.after_P1 (JStr "timeout")).
  - apply (sequential_cons _ 1%positive [] Sample.start (Some 1%positive)
             Sample.after_P1 _ [] Sample.after_P1).
    + by vm_compute.
    + by vm_compute.
    + constructor.
  - vm_compute. eauto.
  - apply lookup_fails. by vm_compute.
Defined.

(** C4, as stated, fails for a write that the store answers with errors.
    The bulk write of the facilities of [P1] is fulfilled with an error for
    each of the two documents: nothing was written.  The cascade only logs
    that answer, as it logs any other, and the queue goes on: it reports the
    contact as removed, looks up and handles [P2], and fulfils with the list
    of persons. *)
Lemma cleanContactPersons_goes_on_after_refused_writes :
  let r := cleanContactPersons Sample.fs_ok Cases.conflict_db false "logs"
             [1%positive; 2%positive] Sample.start in
  (forall history,
      bulkDocs Cases.conflict_db history
        [delete "contact" Sample.F1; delete "contact" Sample.F2]
      = Resolves [Cases.refused_write "F1"; Cases.refused_write "F2"])
  /\ r.1 = Fulfilled [1%positive; 2%positive]
  /\ trace r.2
     = [EvQuery "medic/facilities_by_contact" (facilities_by_contact (JStr "P1"));
        EvLog [JStr "Person P1 is contact for 2 facilities : ";
               JArr [JStr "F1"; JStr "F2"]];
        EvWriteFile "logs/cleaned_facilities_P1.json" [Sample.F1; Sample.F2] None;
        EvLog [JStr "Wrote 2 docs to file logs/cleaned_facilities_P1.json"];
        EvBulkDocs [delete "contact" Sample.F1; delete "contact" Sample.F2];
        EvLog [JStr "Removed contact P1 from 2 facilities"];
        EvLog [JArr [Cases.refused_write "F1"; Cases.refused_write "F2"]];
        EvQuery "medic/facilities_by_contact" (facilities_by_contact (JStr "P2"));
        EvLog [JStr "Person P2 is contact for 1 facilities : "; JArr [JStr "F3"]];
        EvWriteFile "logs/cleaned_facilities_P2.json" [Sample.F3] None;
        EvLog [JStr "Wrote 1 docs to file logs/cleaned_facilities_P2.json"];
        EvBulkDocs [delete "contact" Sample.F3];
        EvLog [JStr "Removed contact P2 from 1 facilities"];
        EvLog [JArr [Cases.refused_write "F3"]]].
Proof. cbv zeta. split_and!; [intros history|..]; by vm_compute. Qed.

(** The run of the worked case: the persons [P1] and [P2], in this order.
    Two audit files, two writes to the store, and everything about [P1]
    before the lookup for [P2]. *)
Lemma cleanContactPersons_worked_case :
  let r := cleanContactPersons Sample.fs_ok Sample.db false "logs"
             [1%positive; 2%positive] Sample.start in
  r.1 = Fulfilled [1%positive; 2%positive]
  /\ trace r.2
     = [EvQuery "medic/facilities_by_contact" (facilities_by_contact (JStr "P1"));
        EvLog [JStr "Person P1 is contact for 2 facilities : ";
               JArr [JStr "F1"; JStr "F2"]];
        EvWriteFile "logs/cleaned_facilities_P1.json" [Sample.F1; Sample.F2] None;
        EvLog [JStr "Wrote 2 docs to file logs/cleaned_facilities_P1.json"];
        EvBulkDocs [delete "contact" Sample.F1; delete "contact" Sample.F2];
        EvLog [JStr "Removed contact P1 from 2 facilities"];
        EvLog [JArr (Sample.ok_rows [Sample.F1; Sample.F2])];
        EvQuery "medic/facilities_by_contact" (facilities_by_contact (JStr "P2"));
        EvLog [JStr "Person P2 is contact for 1 facilities : "; JArr [JStr "F3"]];
        EvWriteFile "logs/cleaned_facilities_P2.json" [Sample.F3] None;
        EvLog [JStr "Wrote 1 docs to file logs/cleaned_facilities_P2.json"];
        EvBulkDocs [delete "contact" Sample.F3];
        EvLog [JStr "Removed contact P2 from 1 facilities"];
        EvLog [JArr (Sample.ok_rows [Sample.F3])]].
Proof. split; by vm_compute. Qed.

(** * Further properties of the module *)

(** ** The filters *)

Lemma List_filter_sublist {A} (f : A -> bool) (l : list A) :
  sublist (List.filter f l) l.
Proof.
  induction l as [|x l IH]; cbn; first done.
  destruct (f x); by constructor.
Qed.

Lemma List_filter_comm {A} (f g : A -> bool) (l : list A) :
  List.filter f (List.filter g l) = List.filter g (List.filter f l).
Proof.
  induction l as [|x l IH]; cbn; first done.
  destruct (f x) eqn:Hf, (g x) eqn:Hg; cbn; rewrite ?Hf ?Hg; by rewrite IH.
Qed.

Lemma List_filter_idemp {A} (f : A -> bool) (l : list A) :
  List.filter f (List.filter f l) = List.filter f l.
Proof.
  induction l as [|x l IH]; cbn; first done.
  destruct (f x) eqn:Hf; cbn; rewrite ?Hf; by rewrite IH.
Qed.

Lemma List_filter_none {A} (f : A -> bool) (l : list A) :
  (forall x, f x = false) -> List.filter f l = [].
Proof.
  intros Hf. induction l as [|x l IH]; cbn; first done. by rewrite Hf.
Qed.

Lemma strict_eq_str_true v s : strict_eq_str v s = true <-> v = JStr s.
Proof.
  destruct v; cbn; try by split.
  rewrite String.eqb_eq. split; congruence.
Qed.

(** X1. [filterByType] keeps, in the order of the list, exactly the
    documents whose [type] field is the given string: a document without
    [type], or whose [type] is not a string, is left out; no document is
    changed. *)
Theorem filterByType_keeps_type (docsList : list loc) (type : string) (w : world) :
  exists kept,
    (filterByType docsList type w).1 = Fulfilled kept
    /\ (forall d, d ∈ kept <->
                  d ∈ docsList /\ get_obj (heap w) d !! "type" = Some (JStr type))
    /\ sublist kept docsList
    /\ heap (filterByType docsList type w).2 = heap w.
Proof.
  eexists. split; first done. split_and!.
  - intros d. rewrite !list_elem_of_In filter_In strict_eq_str_true /get_field.
    destruct (get_obj (heap w) d !! "type") as [v|]; cbn;
      split; intros [? ?]; split; congruence.
  - apply List_filter_sublist.
  - done.
Qed.

Section MoreDates.

Variable StringToNumber : string -> option Z.

(** X2. The two filters commute: by date then by type, or by type then by
    date, the same documents are kept, in the same order. *)
Theorem filters_commute (docsList : list loc) (t0 t1 : Z) (type : string)
    (w : world) :
  exists by_date by_type kept,
    (filterByDate StringToNumber docsList t0 t1 w).1 = Fulfilled by_date
    /\ (filterByType by_date type
          (filterByDate StringToNumber docsList t0 t1 w).2).1 = Fulfilled kept
    /\ (filterByType docsList type w).1 = Fulfilled by_type
    /\ (filterByDate StringToNumber by_type t0 t1
          (filterByType docsList type w).2).1 = Fulfilled kept.
Proof.
  do 3 eexists. split_and!; try done.
  cbn. by rewrite List_filter_comm.
Qed.

(** X3. Filtering by date what the date filter kept changes nothing. *)
Theorem filterByDate_idempotent (docsList : list loc) (t0 t1 : Z) (w : world) :
  exists kept,
    (filterByDate StringToNumber docsList t0 t1 w).1 = Fulfilled kept
    /\ (filterByDate StringToNumber kept t0 t1
          (filterByDate StringToNumber docsList t0 t1 w).2).1 = Fulfilled kept.
Proof.
  eexists. split; first done. cbn. by rewrite List_filter_idemp.
Qed.

(** X4. When the end of the range is not after its start, the date filter
    keeps nothing, whatever the documents hold as date. *)
Theorem filterByDate_empty_range (docsList : list loc) (t0 t1 : Z) (w : world) :
  t1 <= t0 ->
  (filterByDate StringToNumber docsList t0 t1 w).1 = Fulfilled [].
Proof.
  intros Hle. rewrite filterByDate_run. cbn [fst]. f_equal.
  apply List_filter_none. intros d.
  unfold js_ge, js_lt.
  destruct (ToNumber StringToNumber _) as [m|]; last by rewrite andb_false_r.
  destruct (t0 <=? m) eqn:H0; last by rewrite andb_false_r.
  destruct (m <? t1) eqn:H1; last by rewrite andb_false_r.
  apply Z.leb_le in H0. apply Z.ltb_lt in H1. lia.
Qed.

End MoreDates.

Lemma filterByDate_empty_range_witness :
  (filterByDate Sample.no_number [1%positive; 2%positive; 3%positive] 5 5
     Sample.start).1 = Fulfilled [].
Proof.
  apply (filterByDate_empty_range Sample.no_number
           [1%positive; 2%positive; 3%positive] 5 5 Sample.start).
  lia.
Defined.

(** ** Updates in place that change nothing *)

Lemma update_all_id f ls (h : gmap loc obj) :
  (forall l, l ∈ ls -> exists o, h !! l = Some o /\ f o = o) ->
  update_all f ls h = h.
Proof.
  induction ls as [|a ls IH]; intros Hls; first done.
  destruct (Hls a) as (o & Ho & Hf); first by left.
  rewrite /= /get_obj Ho /= Hf insert_id //.
  apply IH. intros l Hl. apply Hls. by right.
Qed.

Lemma tombstone_live (h : gmap loc obj) d :
  tombstone (get_obj h d) ->
  exists o, h !! d = Some o /\ <["_deleted" := JBool true]> o = o.
Proof.
  unfold tombstone, get_obj. destruct (h !! d) as [o|]; cbn; last done.
  intros Ho. exists o. split; first done. by apply insert_id.
Qed.

Lemma written_tombstones docs (h : gmap loc obj) :
  map (get_obj (update_all (insert "_deleted" (JBool true)) docs h)) docs
  = map (fun d => <["_deleted" := JBool true]> (get_obj h d)) docs.
Proof.
  rewrite map_get_obj_update_all; first by rewrite map_map.
  intros o. apply insert_insert_eq.
Qed.

(** X5. When the store rejects the write, [deleteDocs] rejects with the
    reason the store gave and logs nothing: the write is the only thing it
    has done outside, and the documents in memory stay marked as deleted. *)
Theorem deleteDocs_store_rejection (db : database) (docs : list loc) (w : world)
    (reason : jsval) :
  bulkDocs db (trace w)
    (map (fun d => <["_deleted" := JBool true]> (get_obj (heap w) d)) docs)
    = Rejects reason ->
  let r := deleteDocs false db docs w in
  r.1 = Rejected reason
  /\ emitted w r.2
     = [EvBulkDocs
          (map (fun d => <["_deleted" := JBool true]> (get_obj (heap w) d)) docs)]
  /\ map (get_obj (heap r.2)) docs
     = map (fun d => <["_deleted" := JBool true]> (get_obj (heap w) d)) docs.
Proof.
  intros Hb r. subst r. rewrite deleteDocs_run written_tombstones Hb.
  split_and!; first done.
  - by apply emitted_app.
  - apply written_tombstones.
Qed.

Lemma deleteDocs_store_rejection_witness :
  let r := deleteDocs false Cases.read_only_db [1%positive; 2%positive] Sample.start in
  r.1 = Rejected (JStr "forbidden")
  /\ emitted Sample.start r.2
     = [EvBulkDocs
          (map (fun d => <["_deleted" := JBool true]> (get_obj (heap Sample.start) d))
             [1%positive; 2%positive])]
  /\ map (get_obj (heap r.2)) [1%positive; 2%positive]
     = map (fun d => <["_deleted" := JBool true]> (get_obj (heap Sample.start) d))
         [1%positive; 2%positive].
Proof.
  apply (deleteDocs_store_rejection Cases.read_only_db [1%positive; 2%positive]
           Sample.start (JStr "forbidden")).
  done.
Defined.

(** X6. Deleting again documents that are already marked as deleted changes
    nothing in memory, and sends them to the store as they are. *)
Theorem deleteDocs_again_harmless (db : database) (docs : list loc) (w : world) :
  Forall (fun d => tombstone (get_obj (heap w) d)) docs ->
  heap (deleteDocs false db docs w).2 = heap w
  /\ exists rest,
       emitted w (deleteDocs false db docs w).2
       = EvBulkDocs (map (get_obj (heap w)) docs) :: rest.
Proof.
  intros Hdocs.
  assert (update_all (insert "_deleted" (JBool true)) docs (heap w) = heap w) as Hh.
  { apply update_all_id. intros l Hl. apply tombstone_live.
    rewrite Forall_forall in Hdocs. by apply Hdocs. }
  rewrite deleteDocs_run Hh.
  destruct (bulkDocs db (trace w) _) as [result|e]; cbn [snd heap].
  - split; first done. eexists. by apply emitted_app.
  - split; first done. eexists. by apply emitted_app.
Qed.

Lemma deleteDocs_again_harmless_witness :
  heap (deleteDocs false Sample.db [1%positive] Cases.settled_world).2
  = heap Cases.settled_world
  /\ exists rest,
       emitted Cases.settled_world
         (deleteDocs false Sample.db [1%positive] Cases.settled_world).2
       = EvBulkDocs (map (get_obj (heap Cases.settled_world)) [1%positive]) :: rest.
Proof.
  apply (deleteDocs_again_harmless Sample.db [1%positive] Cases.settled_world).
  apply List.Forall_cons; last apply List.Forall_nil.
  by vm_compute.
Defined.

(** X7. When no facility of the list has a contact, [removeContact] leaves
    the memory as it was, whatever the dry-run flag; with dry-run off it
    still sends the facilities, unchanged, to the store. *)
Theorem removeContact_nothing_to_strip (db : database) (person : loc)
    (facilitiesList : list loc) (w : world) :
  Forall (fun f => is_Some (heap w !! f) /\ get_obj (heap w) f !! "contact" = None)
    facilitiesList ->
  (forall dryrun, heap (removeContact db dryrun person facilitiesList w).2 = heap w)
  /\ exists rest,
       emitted w (removeContact db false person facilitiesList w).2
       = EvBulkDocs (map (get_obj (heap w)) facilitiesList) :: rest.
Proof.
  intros Hfl.
  assert (update_all (delete "contact") facilitiesList (heap w) = heap w) as Hh.
  { apply update_all_id. intros l Hl.
    rewrite Forall_forall in Hfl. destruct (Hfl l Hl) as [[o Ho] Hc].
    exists o. split; first done. apply delete_id.
    by rewrite /get_obj Ho in Hc. }
  split.
  - intros [].
    + by rewrite removeContact_dryrun.
    + destruct (bulkDocs db (trace w) (map (get_obj (heap w)) facilitiesList))
        as [result|e] eqn:Hb.
      * erewrite removeContact_resolved; by rewrite Hh.
      * erewrite removeContact_rejected; by rewrite Hh.
  - destruct (bulkDocs db (trace w) (map (get_obj (heap w)) facilitiesList))
      as [result|e] eqn:Hb.
    + erewrite removeContact_resolved; last by rewrite Hh.
      rewrite Hh. eexists. by apply emitted_app.
    + erewrite removeContact_rejected; last by rewrite Hh.
      rewrite Hh. eexists. by apply emitted_app.
Qed.

Lemma removeContact_nothing_to_strip_witness :
  (forall dryrun,
      heap (removeContact Sample.db dryrun 1%positive [2%positive]
              Cases.settled_world).2 = heap Cases.settled_world)
  /\ exists rest,
       emitted Cases.settled_world
         (removeContact Sample.db false 1%positive [2%positive] Cases.settled_world).2
       = EvBulkDocs (map (get_obj (heap Cases.settled_world)) [2%positive]) :: rest.
Proof.
  apply (removeContact_nothing_to_strip Sample.db 1%positive [2%positive]
           Cases.settled_world).
  apply List.Forall_cons; last apply List.Forall_nil.
  split; vm_compute; eauto.
Defined.

(** ** The audit files *)

Lemma list_ascii_of_string_app s1 s2 :
  list_ascii_of_string (s1 +:+ s2)
  = (list_ascii_of_string s1 ++ list_ascii_of_string s2)%list.
Proof. induction s1 as [|c s1 IH]; simpl; [done | by f_equal]. Qed.

Lemma string_app_inv_tail s1 s2 s : s1 +:+ s = s2 +:+ s -> s1 = s2.
Proof.
  intros H%(f_equal list_ascii_of_string).
  rewrite !list_ascii_of_string_app in H. apply app_inv_tail in H.
  by rewrite -(string_of_list_ascii_of_string s1) H string_of_list_ascii_of_string.
Qed.

(** X9. The audit files of two persons are the same file only if their
    identifiers read the same as strings: persons whose [_id] are different
    strings never share an audit file. *)
Theorem audit_file_injective (logdir : string) (pid1 pid2 : jsval) :
  (audit_file logdir pid1 = audit_file logdir pid2 -> ToString pid1 = ToString pid2)
  /\ forall id1 id2 : string,
       id1 <> id2 ->
       audit_file logdir (JStr id1) <> audit_file logdir (JStr id2).
Proof.
  assert (forall a b, audit_file logdir a = audit_file logdir b ->
                      ToString a = ToString b) as Hinj.
  { intros a b. unfold audit_file.
    intros H%(inj (String.append logdir))%(inj (String.append "/cleaned_facilities_")).
    by apply string_app_inv_tail in H. }
  split; first by apply Hinj.
  intros id1 id2 Hne H. by apply Hne, (Hinj (JStr id1) (JStr id2)).
Qed.

(** ** Dry-run never writes to the store *)

Create HintDb read_only.

Lemma read_only_silent {A} (m : M A) :
  (forall w, trace (m w).2 = trace w) -> read_only m.
Proof. intros H w. exists []. by rewrite H app_nil_r. Qed.

Lemma read_only_resolve {A} (a : A) : read_only (resolve a).
Proof. by apply read_only_silent. Qed.

Lemma read_only_throw {A} e : read_only (@throw A e).
Proof. by apply read_only_silent. Qed.

Lemma read_only_field l k : read_only (field l k).
Proof. by apply read_only_silent. Qed.

Lemma read_only_modify l f : read_only (modify l f).
Proof. by apply read_only_silent. Qed.

Lemma read_only_alloc o : read_only (alloc o).
Proof. by apply read_only_silent. Qed.

Lemma read_only_console_log args : read_only (console_log args).
Proof. intros w. exists [EvLog args]. split; first done. by repeat constructor. Qed.

Lemma read_only_then {A B} (p : M A) (f : A -> M B) :
  read_only p -> (forall a, read_only (f a)) -> read_only (then_ p f).
Proof.
  intros Hp Hf w. unfold then_.
  destruct (Hp w) as (seg & Hseg & Hok).
  destruct (p w) as [[a|e| |] w1]; cbn [fst snd] in *; [|by eauto..].
  destruct (Hf a w1) as (seg' & Hseg' & Hok').
  exists (seg ++ seg'). split; first by rewrite Hseg' Hseg app_assoc.
  by apply Forall_app.
Qed.

Lemma read_only_catch {A} (p : M A) h :
  read_only p -> (forall e, read_only (h e)) -> read_only (catch_ p h).
Proof.
  intros Hp Hh w. unfold catch_.
  destruct (Hp w) as (seg & Hseg & Hok).
  destruct (p w) as [[a|e| |] w1]; cbn [fst snd] in *; [by eauto| |by eauto..].
  destruct (Hh e w1) as (seg' & Hseg' & Hok').
  exists (seg ++ seg'). split; first by rewrite Hseg' Hseg app_assoc.
  by apply Forall_app.
Qed.

Lemma read_only_if {A} (b : bool) (p q : M A) :
  read_only p -> read_only q -> read_only (if b then p else q).
Proof. by destruct b. Qed.

#[export] Hint Resolve read_only_resolve read_only_throw read_only_field
  read_only_modify read_only_alloc read_only_console_log read_only_then
  read_only_catch read_only_if : read_only.

Lemma read_only_map_ {A B} (f : A -> M B) l :
  (forall a, read_only (f a)) -> read_only (map_ f l).
Proof. intros Hf. induction l; cbn [map_]; eauto 6 with read_only. Qed.

Lemma read_only_each_ {A} (f : A -> M unit) l :
  (forall a, read_only (f a)) -> read_only (each_ f l).
Proof. intros Hf. unfold each_. auto using read_only_map_ with read_only. Qed.

Lemma read_only_db_query db view options : read_only (db_query db view options).
Proof.
  intros w. unfold db_query.
  destruct (query db (trace w) view options) as [rows|e].
  - rewrite map_alloc. eexists. split; first done. by repeat constructor.
  - eexists. split; first done. by repeat constructor.
Qed.

Lemma read_only_writeDocsToFile fs_writeFile filepath docsList :
  read_only (writeDocsToFile fs_writeFile filepath docsList).
Proof.
  unfold writeDocsToFile. destruct (length docsList =? 0)%nat; first auto with read_only.
  intros w. destruct (fs_writeFile (trace w) filepath _) as [err|].
  - eexists. split; first done. by repeat constructor.
  - eexists. split; first by rewrite /= -app_assoc. by repeat constructor.
Qed.

#[export] Hint Resolve read_only_map_ read_only_each_ read_only_db_query
  read_only_writeDocsToFile : read_only.

Lemma read_only_isContactFor db pid : read_only (isContactFor db pid).
Proof. unfold isContactFor. eauto 10 with read_only. Qed.

Lemma read_only_removeContact_dry db person facilitiesList :
  read_only (removeContact db true person facilitiesList).
Proof. unfold removeContact. eauto 8 with read_only. Qed.

#[export] Hint Resolve read_only_isContactFor read_only_removeContact_dry : read_only.

Lemma read_only_cleanContactPerson_dry fs_writeFile db logdir person :
  read_only (cleanContactPerson fs_writeFile db true logdir person).
Proof.
  unfold cleanContactPerson.
  apply read_only_then; first auto with read_only. intros pid.
  apply read_only_catch; last eauto 8 with read_only.
  apply read_only_then; first auto with read_only. intros facilities.
  apply read_only_if; eauto 10 with read_only.
Qed.

Lemma read_only_in_turn clean persons last w :
  (forall p, read_only (clean p)) ->
  exists seg,
    trace (in_turn clean persons last w).2 = trace w ++ seg
    /\ Forall (fun e => is_store_write e = false) seg.
Proof.
  intros Hclean. revert last w.
  induction persons as [|p rest IH]; intros last w.
  - exists []. by rewrite app_nil_r.
  - cbn [in_turn]. destruct (Hclean p w) as (seg & Hseg & Hok).
    destruct (clean p w) as [[r|e| |] w1]; cbn [fst snd] in *; [|by eauto..].
    destruct (IH r w1) as (seg' & Hseg' & Hok').
    exists (seg ++ seg'). split; first by rewrite Hseg' Hseg app_assoc.
    by apply Forall_app.
Qed.

(** X10. Under dry-run the cascade never writes to the store: whatever the
    persons, the store and the file system, no bulk write is among the
    events of [cleanContactPersons]. *)
Theorem dry_run_never_writes
    (fs_writeFile : list event -> string -> list obj -> option jsval)
    (db : database) (logdir : string) (persons : list loc) (w : world) :
  let r := cleanContactPersons fs_writeFile db true logdir persons w in
  trace r.2 = trace w ++ emitted w r.2
  /\ Forall (fun e => is_store_write e = false) (emitted w r.2).
Proof.
  intros r. subst r. rewrite cleanContactPersons_in_turn.
  destruct (read_only_in_turn (cleanContactPerson fs_writeFile db true logdir)
              persons None w (read_only_cleanContactPerson_dry _ _ _))
    as (seg & Hseg & Hok).
  destruct (in_turn _ persons None w) as [[r|e| |] w1]; cbn [fst snd] in *;
    by rewrite (emitted_app _ _ _ Hseg).
Qed.

(** ** What the cascade leaves alone, and how often it calls the store *)

Section Cascade.

Variable fs_writeFile : list event -> string -> list obj -> option jsval.
Variable db : database.
Variables (dryrun : bool) (logdir : string).

Lemma keeps_objects_refl w : keeps_objects w w.
Proof. by intros l _. Qed.

Lemma keeps_objects_trans w1 w2 w3 :
  keeps_objects w1 w2 -> keeps_objects w2 w3 -> keeps_objects w1 w3.
Proof.
  intros H12 H23 l Hl. rewrite H23; first by apply H12. by rewrite H12.
Qed.

Lemma in_turn_extends clean persons last w :
  (forall p, orderly (clean p)) ->
  exists seg, trace (in_turn clean persons last w).2 = trace w ++ seg.
Proof.
  intros Hclean. revert last w.
  induction persons as [|p rest IH]; intros last w.
  - exists []. by rewrite app_nil_r.
  - cbn [in_turn]. destruct (Hclean p w) as [[seg Hseg] _].
    destruct (clean p w) as [[r|e| |] w1]; cbn [fst snd] in *; [|by eauto..].
    destruct (IH r w1) as [seg' Hseg'].
    exists (seg ++ seg'). by rewrite Hseg' Hseg app_assoc.
Qed.

Lemma cleanContactPerson_keeps person w :
  is_Some (heap w !! person) ->
  keeps_objects w (cleanContactPerson fs_writeFile db dryrun logdir person w).2.
Proof.
  intros Hlive.
  destruct (query db (trace w) "medic/facilities_by_contact"
              (facilities_by_contact (person_id w person))) as [rows|e] eqn:Hq.
  2:{ erewrite cleanContactPerson_lookup_failed by done. by intros l Hl. }
  destruct rows as [|row rows].
  { erewrite cleanContactPerson_no_facility by done. by intros l Hl. }
  destruct (fs_writeFile (trace w ++ lookup_events (person_id w person) (row :: rows))
              (audit_file logdir (person_id w person)) (map snd (row :: rows)))
    as [err|] eqn:Hfs.
  { erewrite cleanContactPerson_audit_failed by done.
    intros l Hl. by apply heap_fetched_frame. }
  destruct dryrun eqn:Hdry.
  { erewrite cleanContactPerson_dry by done.
    intros l Hl. by apply heap_stripped_frame. }
  destruct (bulkDocs db
              (trace w ++ lookup_events (person_id w person) (row :: rows)
               ++ audit_events logdir (person_id w person) (row :: rows))
              (map (delete "contact") (map snd (row :: rows)))) as [result|e] eqn:Hb.
  - erewrite cleanContactPerson_stripped by done.
    intros l Hl. by apply heap_stripped_frame.
  - erewrite cleanContactPerson_store_failed by done.
    intros l Hl. by apply heap_stripped_frame.
Qed.

Lemma cleanContactPerson_store_calls person w :
  is_Some (heap w !! person) ->
  (store_calls
     (emitted w (cleanContactPerson fs_writeFile db dryrun logdir person w).2) <= 2)%nat.
Proof.
  intros Hlive.
  destruct (query db (trace w) "medic/facilities_by_contact"
              (facilities_by_contact (person_id w person))) as [rows|e] eqn:Hq.
  2:{ erewrite cleanContactPerson_lookup_failed by done.
      erewrite emitted_app by done. cbn. lia. }
  destruct rows as [|row rows].
  { erewrite cleanContactPerson_no_facility by done.
    erewrite emitted_app by done. cbn. lia. }
  destruct (fs_writeFile (trace w ++ lookup_events (person_id w person) (row :: rows))
              (audit_file logdir (person_id w person)) (map snd (row :: rows)))
    as [err|] eqn:Hfs.
  { erewrite cleanContactPerson_audit_failed by done.
    erewrite emitted_app by done. cbn. lia. }
  destruct dryrun eqn:Hdry.
  { erewrite cleanContactPerson_dry by done.
    erewrite emitted_app by done. cbn. lia. }
  destruct (bulkDocs db
              (trace w ++ lookup_events (person_id w person) (row :: rows)
               ++ audit_events logdir (person_id w person) (row :: rows))
              (map (delete "contact") (map snd (row :: rows)))) as [result|e] eqn:Hb.
  - erewrite cleanContactPerson_stripped by done.
    erewrite emitted_app by done. cbn. lia.
  - erewrite cleanContactPerson_store_failed by done.
    erewrite emitted_app by done. cbn. lia.
Qed.

Lemma store_calls_app evs1 evs2 :
  store_calls (evs1 ++ evs2) = (store_calls evs1 + store_calls evs2)%nat.
Proof. by rewrite /store_calls List.filter_app length_app. Qed.

Lemma in_turn_keeps persons last w :
  Forall (fun p => is_Some (heap w !! p)) persons ->
  keeps_objects w
    (in_turn (cleanContactPerson fs_writeFile db dryrun logdir) persons last w).2
  /\ (store_calls
        (emitted w
           (in_turn (cleanContactPerson fs_writeFile db dryrun logdir)
              persons last w).2) <= 2 * length persons)%nat.
Proof.
  revert last w. induction persons as [|p rest IH]; intros last w Hlive.
  - split; first apply keeps_objects_refl.
    rewrite (emitted_app w w []); last by rewrite app_nil_r. cbn. lia.
  - apply Forall_cons in Hlive as [Hp Hrest]. cbn [in_turn].
    pose proof (cleanContactPerson_keeps p w Hp) as Hkeep.
    pose proof (cleanContactPerson_store_calls p w Hp) as Hcalls.
    destruct (orderly_cleanContactPerson fs_writeFile db dryrun logdir p w)
      as [[seg Hseg] _].
    destruct (cleanContactPerson fs_writeFile db dryrun logdir p w)
      as [[r|e| |] w1]; cbn [fst snd length] in *; [|split; [done | lia]..].
    assert (Forall (fun q => is_Some (heap w1 !! q)) rest) as Hrest1.
    { eapply Forall_impl; first done. intros q Hq. cbn. by rewrite Hkeep. }
    destruct (IH r w1 Hrest1) as [Hkeep' Hcalls'].
    split; first by eapply keeps_objects_trans.
    destruct (in_turn_extends _ rest r w1
                (orderly_cleanContactPerson fs_writeFile db dryrun logdir))
      as [seg' Hseg'].
    rewrite (emitted_app _ _ _ Hseg') in Hcalls'.
    rewrite (emitted_app _ _ _ Hseg) in Hcalls.
    rewrite (emitted_app w _ (seg ++ seg')); last by rewrite Hseg' Hseg app_assoc.
    rewrite store_calls_app. lia.
Qed.

End Cascade.

Lemma cleanContactPersons_world fs_writeFile db dryrun logdir persons w :
  (cleanContactPersons fs_writeFile db dryrun logdir persons w).2
  = (in_turn (cleanContactPerson fs_writeFile db dryrun logdir) persons None w).2.
Proof.
  rewrite cleanContactPersons_in_turn.
  by destruct (in_turn _ persons None w) as [[]].
Qed.

(** X11. The cascade changes no object that was in memory before it ran:
    when the persons of the list are objects of the heap, every object of
    the heap, the persons among them, is the same after [cleanContactPersons]
    as before, whether it fulfils or rejects; only the facilities it fetched
    itself are changed. *)
Theorem cascade_keeps_objects
    (fs_writeFile : list event -> string -> list obj -> option jsval)
    (db : database) (dryrun : bool) (logdir : string) (persons : list loc)
    (w : world) :
  Forall (fun p => is_Some (heap w !! p)) persons ->
  let w' := (cleanContactPersons fs_writeFile db dryrun logdir persons w).2 in
  keeps_objects w w'
  /\ Forall (fun p => get_obj (heap w') p = get_obj (heap w) p) persons.
Proof.
  intros Hlive w'. subst w'. rewrite cleanContactPersons_world.
  destruct (in_turn_keeps fs_writeFile db dryrun logdir persons None w Hlive)
    as [Hkeep _].
  split; first done.
  eapply Forall_impl; first done. intros p Hp. cbn. by rewrite /get_obj Hkeep.
Qed.

Lemma cascade_keeps_objects_witness :
  let w' := (cleanContactPersons Sample.fs_ok Sample.db false "logs"
               [1%positive; 2%positive; 3%positive] Sample.start).2 in
  keeps_objects Sample.start w'
  /\ Forall (fun p => get_obj (heap w') p = get_obj (heap Sample.start) p)
       [1%positive; 2%positive; 3%positive].
Proof.
  apply (cascade_keeps_objects Sample.fs_ok Sample.db false "logs"
           [1%positive; 2%positive; 3%positive] Sample.start).
  repeat (apply List.Forall_cons; first (vm_compute; eauto)).
  apply List.Forall_nil.
Defined.

(** X12. The cascade calls the store at most twice for each person of the
    list (one lookup, and at most one bulk write): when the persons are
    objects of the heap, the lookups and bulk writes of [cleanContactPersons]
    number at most twice the length of the list. *)
Theorem cascade_store_calls_bound
    (fs_writeFile : list event -> string -> list obj -> option jsval)
    (db : database) (dryrun : bool) (logdir : string) (persons : list loc)
    (w : world) :
  Forall (fun p => is_Some (heap w !! p)) persons ->
  (store_calls
     (emitted w (cleanContactPersons fs_writeFile db dryrun logdir persons w).2)
   <= 2 * length persons)%nat.
Proof.
  intros Hlive. rewrite cleanContactPersons_world.
  by destruct (in_turn_keeps fs_writeFile db dryrun logdir persons None w Hlive).
Qed.

Lemma cascade_store_calls_bound_witness :
  (store_calls
     (emitted Sample.start
        (cleanContactPersons Sample.fs_ok Sample.db false "logs"
           [1%positive; 2%positive; 3%positive] Sample.start).2)
   <= 2 * length [1%positive; 2%positive; 3%positive])%nat.
Proof.
  apply (cascade_store_calls_bound Sample.fs_ok Sample.db false "logs"
           [1%positive; 2%positive; 3%positive] Sample.start).
  repeat (apply List.Forall_cons; first (vm_compute; eauto)).
  apply List.Forall_nil.
Defined.

(** X13. Dry-run rehearses the real run of the cascade of a person: from
    the same world both leave the same objects in memory, and either they
    do exactly the same and end the same (nothing to strip, or a failure
    before the write), or they do the same up to the write, where dry-run
    logs that it leaves the write out and hands back the person, and the
    real run writes to the store. *)
Theorem dry_run_rehearses
    (fs_writeFile : list event -> string -> list obj -> option jsval)
    (db : database) (logdir : string) (person : loc) (w : world) :
  is_Some (heap w !! person) ->
  let dry := cleanContactPerson fs_writeFile db true logdir person w in
  let wet := cleanContactPerson fs_writeFile db false logdir person w in
  heap dry.2 = heap wet.2
  /\ (dry = wet
      \/ exists common sent rest,
           emitted w dry.2
           = common ++ [EvLog [JStr "Dryrun : not removing contact links."]]
           /\ emitted w wet.2 = common ++ EvBulkDocs sent :: rest
           /\ dry.1 = Fulfilled (Some person)).
Proof.
  intros Hlive dry wet. subst dry wet.
  destruct (query db (trace w) "medic/facilities_by_contact"
              (facilities_by_contact (person_id w person))) as [rows|e] eqn:Hq.
  2:{ rewrite !(cleanContactPerson_lookup_failed _ _ _ _ _ _ e) //. by split; [|left]. }
  destruct rows as [|row rows].
  { rewrite !cleanContactPerson_no_facility //. by split; [|left]. }
  destruct (fs_writeFile (trace w ++ lookup_events (person_id w person) (row :: rows))
              (audit_file logdir (person_id w person)) (map snd (row :: rows)))
    as [err|] eqn:Hfs.
  { rewrite !(cleanContactPerson_audit_failed _ _ _ _ _ _ Hlive (row :: rows) err) //.
    by split; [|left]. }
  rewrite (cleanContactPerson_dry _ _ true _ _ _ Hlive (row :: rows)) //.
  destruct (bulkDocs db
              (trace w ++ lookup_events (person_id w person) (row :: rows)
               ++ audit_events logdir (person_id w person) (row :: rows))
              (map (delete "contact") (map snd (row :: rows)))) as [result|e] eqn:Hb.
  - rewrite (cleanContactPerson_stripped _ _ false _ _ _ Hlive (row :: rows) result) //.
    split; first done. right.
    exists (lookup_events (person_id w person) (row :: rows)
            ++ audit_events logdir (person_id w person) (row :: rows)).
    do 2 eexists. split_and!; last done.
    + apply emitted_app. cbn [snd trace]. by rewrite -!app_assoc.
    + apply emitted_app. cbn [snd trace]. by rewrite -!app_assoc.
  - rewrite (cleanContactPerson_store_failed _ _ false _ _ _ Hlive (row :: rows) e) //.
    split; first done. right.
    exists (lookup_events (person_id w person) (row :: rows)
            ++ audit_events logdir (person_id w person) (row :: rows)).
    do 2 eexists. split_and!; last done.
    + apply emitted_app. cbn [snd trace]. by rewrite -!app_assoc.
    + apply emitted_app. cbn [snd trace]. by rewrite -!app_assoc.
Qed.

Lemma dry_run_rehearses_witness :
  let dry := cleanContactPerson Sample.fs_ok Sample.db true "logs" 1%positive
               Sample.start in
  let wet := cleanContactPerson Sample.fs_ok Sample.db false "logs" 1%positive
               Sample.start in
  heap dry.2 = heap wet.2
  /\ (dry = wet
      \/ exists common sent rest,
           emitted Sample.start dry.2
           = common ++ [EvLog [JStr "Dryrun : not removing contact links."]]
           /\ emitted Sample.start wet.2 = common ++ EvBulkDocs sent :: rest
           /\ dry.1 = Fulfilled (Some 1%positive)).
Proof.
  apply (dry_run_rehearses Sample.fs_ok Sample.db "logs" 1%positive Sample.start).
  vm_compute. eauto.
Defined.

(** ** The answers the confirmation gate takes *)

Lemma matches_prefix_dead r1 r2 s :
  matches_prefix (RAlt (RSeq RNone r1) (RSeq RNone r2)) s = false.
Proof. induction s as [|c s IH]; cbn; [done | exact IH]. Qed.

Lemma matches_prefix_yesno c s :
  matches_prefix yesno_validator (String c s) = Ascii.eqb c "y" || Ascii.eqb c "n".
Proof.
  cbn [matches_prefix yesno_validator nullable deriv andb orb].
  destruct (Ascii.eqb c "y") eqn:Hy, (Ascii.eqb c "n") eqn:Hn.
  - by destruct s.
  - by destruct s.
  - by destruct s.
  - apply matches_prefix_dead.
Qed.

(** X14. The validator of the prompt is not anchored: it lets through every
    answer that contains the letter [y] or the letter [n] somewhere, and no
    other. *)
Theorem yesno_validator_unanchored (answer : string) :
  regex_test yesno_validator answer = has_y_or_n answer.
Proof.
  induction answer as [|c s IH]; first done.
  cbn [regex_test has_y_or_n]. by rewrite matches_prefix_yesno IH.
Qed.

Section Prompt.

Variable p : property.
Hypothesis validator_p : validator p = yesno_validator.
Hypothesis default_p : default_answer p = "yes".

(** The callback gets the answer [yes] exactly when, after refused lines,
    the operator types [yes] or a blank line. *)
Lemma prompt_read_yes (keys : list input) :
  (prompt_read p keys).1 = Some (inr "yes")
  <-> exists skipped a rest,
        keys = map Typed skipped ++ Typed a :: rest
        /\ Forall refused skipped
        /\ (a = "yes" \/ a = "").
Proof.
  induction keys as [|[line|] keys IH].
  - split; first done. by intros ([|??] & ? & ? & ? & _).
  - cbn [prompt_read]. rewrite validator_p default_p.
    destruct (String.eqb_spec line "") as [->|Hline].
    + cbn. split; last done. intros _. exists [], "", keys. by eauto.
    + destruct (regex_test yesno_validator line) eqn:Htest.
      * cbn. split.
        -- intros [= ->]. exists [], "yes", keys. by eauto.
        -- intros ([|s skipped] & a & rest & Heq & Hskip & Ha); simplify_eq/=.
           ++ by destruct Ha as [->| ->].
           ++ apply Forall_cons in Hskip as [[_ Hs] _]. congruence.
      * rewrite IH. split.
        -- intros (skipped & a & rest & -> & Hskip & Ha).
           exists (line :: skipped), a, rest. split_and!; try done.
           by constructor.
        -- intros ([|s skipped] & a & rest & Heq & Hskip & Ha); simplify_eq/=.
           ++ destruct Ha as [->| ->]; [by vm_compute in Htest | done].
           ++ apply Forall_cons in Hskip as [_ Hskip]. by exists skipped, a, rest.
  - split; first done. by intros ([|??] & ? & ? & ? & _).
Qed.

(** The callback is never called exactly when the input ends after refused
    lines only. *)
Lemma prompt_read_none (keys : list input) :
  (prompt_read p keys).1 = None
  <-> exists skipped, keys = map Typed skipped /\ Forall refused skipped.
Proof.
  induction keys as [|[line|] keys IH].
  - split; last done. intros _. by exists [].
  - cbn [prompt_read]. rewrite validator_p default_p.
    destruct (String.eqb_spec line "") as [->|Hline].
    + cbn. split; first done.
      intros ([|s skipped] & Heq & Hskip); simplify_eq/=.
      by apply Forall_cons in Hskip as [[? _] _].
    + destruct (regex_test yesno_validator line) eqn:Htest.
      * cbn. split; first done.
        intros ([|s skipped] & Heq & Hskip); simplify_eq/=.
        apply Forall_cons in Hskip as [[_ Hs] _]. congruence.
      * rewrite IH. split.
        -- intros (skipped & -> & Hskip). exists (line :: skipped).
           split; first done. by constructor.
        -- intros ([|s skipped] & Heq & Hskip); simplify_eq/=.
           apply Forall_cons in Hskip as [_ Hskip]. by exists skipped.
  - split; first done. by intros ([|??] & ? & _).
Qed.

End Prompt.

(** X15. [userConfirm] never rejects: it resolves, ends the process, or is
    left pending.  It resolves exactly when, after lines that are refused
    (not blank and without [y] or [n]), the operator types [yes] or a blank
    line.  It is left pending, the callback never called, exactly when the
    input ends after refused lines only.  In every other case (another
    accepted answer, or an interrupt) it ends the process. *)
Theorem userConfirm_outcome (message : string) (w : world) :
  let r := userConfirm message w in
  (r.1 = Fulfilled tt \/ r.1 = Exited \/ r.1 = Pending)
  /\ (r.1 = Fulfilled tt
      <-> exists skipped a rest,
            stdin w = map Typed skipped ++ Typed a :: rest
            /\ Forall refused skipped
            /\ (a = "yes" \/ a = ""))
  /\ (r.1 = Pending
      <-> exists skipped, stdin w = map Typed skipped /\ Forall refused skipped).
Proof.
  intros r. subst r.
  pose proof (prompt_read_yes
    {| name := "yesno"; message := message; validator := yesno_validator;
       warning := "Must respond yes or no"; default_answer := "yes" |}
    eq_refl eq_refl (stdin w)) as Hyes.
  pose proof (prompt_read_none
    {| name := "yesno"; message := message; validator := yesno_validator;
       warning := "Must respond yes or no"; default_answer := "yes" |}
    eq_refl eq_refl (stdin w)) as Hnone.
  rewrite -Hyes -Hnone /userConfirm /then_ /console_log /prompt_get /=.
  destruct (prompt_read _ (stdin w)) as [[[err|answer]|] rest]; cbn.
  - split_and!; [by right; left | by split | by split].
  - destruct (String.eqb_spec answer "yes") as [->|Hne]; cbn.
    + split_and!; [by left | by split | by split].
    + split_and!; [by right; left | split; [done | congruence] | by split].
  - split_and!; [by right; right | by split | by split].
Qed.

(** ** What a failed audit tells, and a person without identifier *)

(** X16. The cause of a failed write never reaches the caller of
    [writeDocsToFile]: whatever error the file system reports, the promise
    rejects with the same reason, the fixed message followed by the path,
    and memory is left as it was. *)
Theorem writeDocsToFile_hides_cause
    (fs1 fs2 : list event -> string -> list obj -> option jsval)
    (filepath : string) (docsList : list loc) (w : world) (err1 err2 : jsval) :
  docsList <> [] ->
  fs1 (trace w) filepath (map (get_obj (heap w)) docsList) = Some err1 ->
  fs2 (trace w) filepath (map (get_obj (heap w)) docsList) = Some err2 ->
  (writeDocsToFile fs1 filepath docsList w).1
  = Rejected (JStr ("Couldn't write to file" +:+ filepath))
  /\ (writeDocsToFile fs2 filepath docsList w).1
     = (writeDocsToFile fs1 filepath docsList w).1
  /\ heap (writeDocsToFile fs1 filepath docsList w).2 = heap w.
Proof.
  intros Hne H1 H2.
  by rewrite (writeDocsToFile_failed fs1 _ _ _ err1) //
             (writeDocsToFile_failed fs2 _ _ _ err2).
Qed.

Lemma writeDocsToFile_hides_cause_witness :
  (writeDocsToFile (fun _ _ _ => Some (JStr "ENOSPC")) "logs/a.json" [1%positive]
     Sample.start).1
  = Rejected (JStr ("Couldn't write to file" +:+ "logs/a.json"))
  /\ (writeDocsToFile (fun _ _ _ => Some (JStr "EACCES")) "logs/a.json" [1%positive]
        Sample.start).1
     = (writeDocsToFile (fun _ _ _ => Some (JStr "ENOSPC")) "logs/a.json" [1%positive]
          Sample.start).1
  /\ heap (writeDocsToFile (fun _ _ _ => Some (JStr "ENOSPC")) "logs/a.json"
             [1%positive] Sample.start).2 = heap Sample.start.
Proof.
  apply (writeDocsToFile_hides_cause
           (fun _ _ _ => Some (JStr "ENOSPC")) (fun _ _ _ => Some (JStr "EACCES"))
           "logs/a.json" [1%positive] Sample.start (JStr "ENOSPC") (JStr "EACCES"));
    done.
Defined.

(** The cascade of a person some facility refers to reaches the audit: the
    events of the lookup, then the write of the audit file. *)
Lemma cleanContactPerson_audit_event fs_writeFile db dryrun logdir person w rows :
  is_Some (heap w !! person) ->
  query db (trace w) "medic/facilities_by_contact"
    (facilities_by_contact (person_id w person)) = Resolves rows ->
  rows <> [] ->
  exists err rest,
    emitted w (cleanContactPerson fs_writeFile db dryrun logdir person w).2
    = lookup_events (person_id w person) rows
      ++ EvWriteFile (audit_file logdir (person_id w person)) (map snd rows) err
         :: rest.
Proof.
  intros Hlive Hq Hne.
  destruct (fs_writeFile (trace w ++ lookup_events (person_id w person) rows)
              (audit_file logdir (person_id w person)) (map snd rows))
    as [err|] eqn:Hfs.
  { erewrite cleanContactPerson_audit_failed by done.
    do 2 eexists. by apply emitted_app. }
  destruct dryrun eqn:Hdry.
  { erewrite cleanContactPerson_dry by done.
    do 2 eexists. by apply emitted_app. }
  destruct (bulkDocs db
              (trace w ++ lookup_events (person_id w person) rows
               ++ audit_events logdir (person_id w person) rows)
              (map (delete "contact") (map snd rows))) as [result|e] eqn:Hb.
  - erewrite cleanContactPerson_stripped by done.
    do 2 eexists. by apply emitted_app.
  - erewrite cleanContactPerson_store_failed by done.
    do 2 eexists. by apply emitted_app.
Qed.

(** X17. A person document without [_id] is looked up under the key
    [[undefined]], and when the store answers facilities for that key their
    snapshot goes to the file [cleaned_facilities_undefined.json] of the log
    directory: every such person shares that one file. *)
Theorem cascade_without_id
    (fs_writeFile : list event -> string -> list obj -> option jsval)
    (db : database) (dryrun : bool) (logdir : string) (person : loc) (w : world)
    (rows : list (string * obj)) :
  is_Some (heap w !! person) ->
  get_obj (heap w) person !! "_id" = None ->
  query db (trace w) "medic/facilities_by_contact"
    {| key := JArr [JUndefined]; include_docs := true |} = Resolves rows ->
  rows <> [] ->
  exists err rest,
    emitted w (cleanContactPerson fs_writeFile db dryrun logdir person w).2
    = lookup_events JUndefined rows
      ++ EvWriteFile (logdir +:+ "/cleaned_facilities_undefined.json")
           (map snd rows) err
         :: rest.
Proof.
  intros Hlive Hid Hq Hne.
  assert (person_id w person = JUndefined) as Hpid
    by by rewrite /person_id /get_field Hid.
  destruct (cleanContactPerson_audit_event fs_writeFile db dryrun logdir person w rows)
    as (err & rest & Hev); try done.
  { by rewrite Hpid. }
  exists err, rest. by rewrite Hev Hpid.
Qed.

Lemma cascade_without_id_witness :
  exists err rest,
    emitted Cases.anonymous_world
      (cleanContactPerson Sample.fs_ok Cases.undefined_db false "logs" 1%positive
         Cases.anonymous_world).2
    = lookup_events JUndefined [("F3", Sample.F3)]
      ++ EvWriteFile ("logs" +:+ "/cleaned_facilities_undefined.json")
           (map snd [("F3", Sample.F3)]) err
         :: rest.
Proof.
  apply (cascade_without_id Sample.fs_ok Cases.undefined_db false "logs" 1%positive
           Cases.anonymous_world [("F3", Sample.F3)]).
  - vm_compute. eauto.
  - by vm_compute.
  - done.
  - done.
Defined.
